(** * xorm: the base model of src/model.js

    A shallow embedding of [BaseModel] (src/model.js): the table-name and
    relation-mapping accessors with their per-class cache slots, the four
    relation builders, and the two lifecycle hooks that stamp timestamps.

    JavaScript classes are objects: a static property read such as
    [this._relationMappings] walks the prototype chain of the class (the
    class itself, then its superclasses), while an assignment always
    creates or updates an own property of [this].  The state below keeps
    the own properties the code writes, and reads walk the chain. *)

From Stdlib Require Import ZArith Ascii String.
From stdpp Require Import gmap strings list pretty.

Open Scope string_scope.

(** ** Values *)

(** Class constructors and heap objects are referred to by identity. *)
Abbreviation classid := nat.
Abbreviation loc := nat.

(** The JavaScript values that reach the code: [JNum] is an integer-valued
    number in the safe range, [JObj] a reference to a plain object. *)
Inductive jsval :=
  | JUndefined
  | JNull
  | JBool (b : bool)
  | JNum (n : Z)
  | JStr (s : string)
  | JObj (l : loc).

(** ToBoolean. *)
Definition truthy (v : jsval) : bool :=
  match v with
  | JUndefined | JNull => false
  | JBool b => b
  | JNum n => negb (n =? 0)%Z
  | JStr s => negb (String.eqb s "")
  | JObj _ => true
  end.

(** ToString, as a template literal or a property key applies it. *)
Definition to_string (v : jsval) : string :=
  match v with
  | JUndefined => "undefined"
  | JNull => "null"
  | JBool true => "true"
  | JBool false => "false"
  | JNum n => pretty n
  | JStr s => s
  | JObj _ => "[object Object]"
  end.

(** [a || b] on values already computed. *)
Definition js_or (a b : jsval) : jsval := if truthy a then a else b.

(** ** Relation declarations *)

(** The argument of a builder: a class, or a string handed to [require]. *)
Inductive target :=
  | TClass (c : classid)
  | TStr (s : string).

(** What [require] yields: an ES module with a [default] export, or a
    module whose exports are the class itself. *)
Inductive exports :=
  | EsModule (default : classid)
  | CommonJs (cls : classid).

(** [options.through] of [hasManyThrough]. *)
Record through_options := ThroughOptions {
  th_model : option target;
  th_table : jsval;
  th_from : jsval;
  th_to : jsval;
  th_extra : jsval;
  th_filter : jsval
}.

(** The [options] object of a builder; an absent key reads [JUndefined]. *)
Record options := Options {
  o_name : jsval;
  o_joinFrom : jsval;
  o_joinTo : jsval;
  o_filter : jsval;
  o_through : option through_options
}.

(** [{}], also the default of an omitted [options] argument. *)
Definition no_through : through_options :=
  ThroughOptions None JUndefined JUndefined JUndefined JUndefined JUndefined.
Definition no_options : options :=
  Options JUndefined JUndefined JUndefined JUndefined None.

(** One call inside a [$relations] hook. *)
Inductive decl :=
  | DBelongsTo (model : target) (opts : options)
  | DHasOne (model : target) (opts : options)
  | DHasMany (model : target) (opts : options)
  | DHasManyThrough (model : target) (opts : options).

(** The static members of a class that the code only reads, as a read on
    the class resolves them: [name], [idColumn] (objection's default is
    "id"), [timestamps] ([true] on BaseModel), the classes above it on the
    prototype chain, nearest first, and the [$relations] hook, if any class
    on the chain defines one. *)
Record classdef := ClassDef {
  name : string;
  idColumn : string;
  timestamps : jsval;
  superclasses : list classid;
  dollar_relations : option (list decl)
}.

(** ** Relation mappings *)

Inductive relation_kind :=
  | BelongsToOneRelation
  | HasOneRelation
  | HasManyRelation
  | ManyToManyRelation.

Record through_spec := ThroughSpec {
  ts_from : jsval;
  ts_to : jsval;
  ts_modelClass : option classid;
  ts_extra : jsval;
  ts_filter : jsval
}.

Record join_spec := JoinSpec {
  from : jsval;
  to : jsval;
  through : option through_spec
}.

Record relation_mapping := RelationMapping {
  relation : relation_kind;
  modelClass : classid;
  filter : jsval;
  join : join_spec
}.

(** ** State *)

Inductive error :=
  | TypeError
  | ModuleNotFound (path : string).

(** Own static properties written by the code, the heap of mapping
    objects, and the classes whose [$relations] was called, latest first. *)
Record state := State {
  _tableName : gmap classid jsval;
  _relationMappings : gmap classid jsval;
  heap : gmap loc (gmap string relation_mapping);
  calls : list classid
}.

(** A property of a record: a [Date] with its time value in milliseconds,
    or any other value. *)
Inductive field :=
  | FDate (ms : Z)
  | FVal (v : jsval).

(** The operation context handed to a hook. *)
Record context := Context {
  dontTouch : jsval
}.

(** The properties of the record a hook runs on, and how many times the
    clock has been read. *)
Record world := World {
  fields : gmap string field;
  ticks : nat
}.

Inductive outcome (A : Type) :=
  | Ok (a : A)
  | Throw (e : error).
Arguments Ok {A} a.
Arguments Throw {A} e.

Definition M (A : Type) : Type := state → outcome A * state.

#[global] Instance M_ret : MRet M := λ A a st, (Ok a, st).

#[global] Instance M_bind : MBind M := λ A B k m st,
  match m st with
  | (Ok a, st') => k a st'
  | (Throw e, st') => (Throw e, st')
  end.

Definition throw {A} (e : error) : M A := λ st, (Throw e, st).

(** A computation that only returns or throws. *)
Definition lift {A} (r : outcome A) : M A := λ st, (r, st).

(** [a || e] where [e] is evaluated only when [a] is falsy. *)
Definition or_else (a : jsval) (e : M jsval) : M jsval :=
  if truthy a then mret a else e.

(** A static property read: the first own property on the chain. *)
Fixpoint proto_lookup (own : gmap classid jsval) (chain : list classid) : jsval :=
  match chain with
  | [] => JUndefined
  | c :: cs =>
      match own !! c with
      | Some v => v
      | None => proto_lookup own cs
      end
  end.

(** ** A small program to run the model on *)

Module Example.

(** On ASCII names in PascalCase (Pet, Person), [_.camelCase] lowers the
    first letter, [_.upperFirst] raises it, and [plural] appends an s to
    a regular noun. *)
Definition map_first (f : ascii → ascii) (s : string) : string :=
  match s with
  | EmptyString => EmptyString
  | String a s' => String (f a) s'
  end.

Definition lower (a : ascii) : ascii :=
  let n := nat_of_ascii a in
  if (65 <=? n)%nat && (n <=? 90)%nat then ascii_of_nat (n + 32) else a.

Definition upper (a : ascii) : ascii :=
  let n := nat_of_ascii a in
  if (97 <=? n)%nat && (n <=? 122)%nat then ascii_of_nat (n - 32) else a.

Definition camelCase : string → string := map_first lower.
Definition upperFirst : string → string := map_first upper.
Definition plural (s : string) : string := s +:+ "s".

(** No module can be loaded by name. *)
Definition require (path : string) : option exports := None.
Definition cwd : string := "/app".

(** BaseModel (0), Person (1), Pet (2), and Puppy (3) which extends Pet
    and declares a relation of its own. *)
Definition BaseModel : classid := 0.
Definition Person : classid := 1.
Definition Pet : classid := 2.
Definition Puppy : classid := 3.

Definition classes (c : classid) : classdef :=
  match c with
  | 1 => ClassDef "Person" "id" (JBool true) [BaseModel]
           (Some [DHasMany (TClass Pet) no_options])
  | 2 => ClassDef "Pet" "id" (JBool true) [BaseModel]
           (Some [DBelongsTo (TClass Person) no_options])
  | 3 => ClassDef "Puppy" "id" (JBool true) [Pet; BaseModel]
           (Some [DHasOne (TClass Person) no_options])
  | _ => ClassDef "BaseModel" "id" (JBool true) [] None
  end.

(** Nothing read or assigned yet. *)
Definition init : state := State ∅ ∅ ∅ [].

(** The state once [Pet.relationMappings] has been read in [init]. *)
Definition pet_mappings : gmap string relation_mapping :=
  {[ "person" := RelationMapping BelongsToOneRelation Person JNull
                   (JoinSpec (JStr "Person.petId") (JStr "Pet.id") None) ]}.
Definition after_pet : state :=
  State {[ Person := JStr "Person"; Pet := JStr "Pet" ]} {[ Pet := JObj 0 ]}
        {[ 0 := pet_mappings ]} [Pet].

(** A class in the middle of its hook: its slot holds a new object. *)
Definition declaring (c : classid) : state := State ∅ {[ c := JObj 0 ]} {[ 0 := ∅ ]} [c].

(** A clock that advances by a second at each reading, base hooks that do
    nothing, and a record loaded with an old creation date. *)
Definition clock (i : nat) : Z := 1000 * Z.of_nat i.
Definition Model_hook (ctx : context) (w : world) : world := w.
Definition record : world :=
  World {[ "createdAt" := FDate 42; "name" := FVal (JStr "Rex") ]} 7.

(** A record as loaded from the database, both timestamps set. *)
Definition saved : world :=
  World {[ "createdAt" := FDate 42; "updatedAt" := FDate 42 ]} 7.


End Example.

(** ** The model *)

Section Model.

Set Default Proof Using "Type".

(** lodash's [_.camelCase] and [_.upperFirst], [plural] of ./utils, node's
    [require] ([None]: the module is not found) and [process.cwd()] are
    taken as given. *)
Variables camelCase upperFirst plural : string → string.
Variable require : string → option exports.
Variable cwd : string.

(** The classes of the program. *)
Variable classes : classid → classdef.

Definition chain (c : classid) : list classid := c :: superclasses (classes c).

(** [this._tableName] and [this._tableName = v]. *)
Definition read_tableName (this : classid) : M jsval :=
  λ st, (Ok (proto_lookup (_tableName st) (chain this)), st).

Definition write_tableName (this : classid) (v : jsval) : M unit :=
  λ st, (Ok tt, State (<[this := v]> (_tableName st)) (_relationMappings st)
                      (heap st) (calls st)).

(** [static get tableName()] *)
Definition tableName (this : classid) : M jsval :=
  cur ← read_tableName this;
  write_tableName this (js_or cur (JStr (name (classes this))));;
  read_tableName this.

(** [static set tableName(table)] *)
Definition set_tableName (this : classid) (table : jsval) : M unit :=
  write_tableName this table.

(** [this._relationMappings] and [this._relationMappings = v]. *)
Definition read_relationMappings (this : classid) : M jsval :=
  λ st, (Ok (proto_lookup (_relationMappings st) (chain this)), st).

Definition write_relationMappings (this : classid) (v : jsval) : M unit :=
  λ st, (Ok tt, State (_tableName st) (<[this := v]> (_relationMappings st))
                      (heap st) (calls st)).

(** [{}]: a new empty object. *)
Definition new_object : M jsval :=
  λ st, let l := fresh (dom (heap st)) in
        (Ok (JObj l), State (_tableName st) (_relationMappings st)
                            (<[l := ∅]> (heap st)) (calls st)).

(** [obj[key] = m] in strict mode: a [TypeError] unless [obj] is an object. *)
Definition set_property (obj : jsval) (key : string) (m : relation_mapping) : M unit :=
  match obj with
  | JObj l =>
      λ st, (Ok tt, State (_tableName st) (_relationMappings st)
                          (<[l := <[key := m]> (default ∅ (heap st !! l))]> (heap st))
                          (calls st))
  | _ => throw TypeError
  end.

(** [static _getModelClass(model)]; it touches no state. *)
Definition _getModelClass (model : target) : outcome classid :=
  match model with
  | TClass c => Ok c
  | TStr s =>
      let path :=
        if String.prefix "." s || String.prefix "/" s then s
        else cwd +:+ "/src/models/" +:+ s in
      match require path with
      | None => Throw (ModuleNotFound path)
      | Some (EsModule c) => Ok c
      | Some (CommonJs c) => Ok c
      end
  end.

(** [static belongsTo(model, options = {})] *)
Definition belongsTo (this : classid) (model : target) (opts : options) : M unit :=
  mc ← lift (_getModelClass model);
  let rname := js_or (o_name opts) (JStr (camelCase (name (classes mc)))) in
  joinFrom ← or_else (o_joinFrom opts)
    (t ← tableName mc;
     mret (JStr (to_string t +:+ "." +:+ camelCase (name (classes this))
                   +:+ upperFirst (idColumn (classes this)))));
  joinTo ← or_else (o_joinTo opts)
    (t ← tableName this;
     mret (JStr (to_string t +:+ "." +:+ idColumn (classes this))));
  let flt := js_or (o_filter opts) JNull in
  obj ← read_relationMappings this;
  set_property obj (to_string rname)
    (RelationMapping BelongsToOneRelation mc flt (JoinSpec joinFrom joinTo None)).

(** [static hasOne(model, options = {})] *)
Definition hasOne (this : classid) (model : target) (opts : options) : M unit :=
  mc ← lift (_getModelClass model);
  let rname := js_or (o_name opts) (JStr (camelCase (name (classes mc)))) in
  joinFrom ← or_else (o_joinFrom opts)
    (t ← tableName this;
     mret (JStr (to_string t +:+ "." +:+ camelCase (name (classes mc))
                   +:+ upperFirst (idColumn (classes mc)))));
  joinTo ← or_else (o_joinTo opts)
    (t ← tableName mc;
     mret (JStr (to_string t +:+ "." +:+ idColumn (classes mc))));
  let flt := js_or (o_filter opts) JNull in
  obj ← read_relationMappings this;
  set_property obj (to_string rname)
    (RelationMapping HasOneRelation mc flt (JoinSpec joinFrom joinTo None)).

(** [static hasMany(model, options = {})] *)
Definition hasMany (this : classid) (model : target) (opts : options) : M unit :=
  mc ← lift (_getModelClass model);
  let rname := js_or (o_name opts) (JStr (plural (camelCase (name (classes mc))))) in
  joinFrom ← or_else (o_joinFrom opts)
    (t ← tableName mc;
     mret (JStr (to_string t +:+ "." +:+ camelCase (name (classes this))
                   +:+ upperFirst (idColumn (classes this)))));
  joinTo ← or_else (o_joinTo opts)
    (t ← tableName this;
     mret (JStr (to_string t +:+ "." +:+ idColumn (classes this))));
  let flt := js_or (o_filter opts) JNull in
  obj ← read_relationMappings this;
  set_property obj (to_string rname)
    (RelationMapping HasManyRelation mc flt (JoinSpec joinFrom joinTo None)).

(** Truthiness of [options.through.model]. *)
Definition model_given (m : option target) : option target :=
  match m with
  | Some (TStr "") => None
  | other => other
  end.

(** [static hasManyThrough(model, options = {})] *)
Definition hasManyThrough (this : classid) (model : target) (opts : options) : M unit :=
  mc ← lift (_getModelClass model);
  let rname := js_or (o_name opts) (JStr (plural (camelCase (name (classes mc))))) in
  joinFrom ← or_else (o_joinFrom opts)
    (t ← tableName this;
     mret (JStr (to_string t +:+ "." +:+ idColumn (classes this))));
  joinTo ← or_else (o_joinTo opts)
    (t ← tableName mc;
     mret (JStr (to_string t +:+ "." +:+ idColumn (classes mc))));
  let flt := js_or (o_filter opts) JNull in
  let thr := default no_through (o_through opts) in
  '(throughClass, throughTable) ←
    match model_given (th_model thr) with
    | Some tm =>
        tc ← lift (_getModelClass tm);
        tbl ← or_else (th_table thr) (tableName tc);
        mret (Some tc, tbl)
    | None =>
        mret (None, js_or (th_table thr)
                      (JStr (name (classes this) +:+ "_" +:+ name (classes mc))))
    end;
  let throughFrom := js_or (th_from thr)
    (JStr (to_string throughTable +:+ "." +:+ camelCase (name (classes this))
             +:+ upperFirst (idColumn (classes this)))) in
  let throughTo := js_or (th_to thr)
    (JStr (to_string throughTable +:+ "." +:+ camelCase (name (classes mc))
             +:+ upperFirst (idColumn (classes mc)))) in
  let throughExtra := js_or (th_extra thr) JNull in
  let throughFilter := js_or (th_filter thr) JNull in
  obj ← read_relationMappings this;
  set_property obj (to_string rname)
    (RelationMapping ManyToManyRelation mc flt
       (JoinSpec joinFrom joinTo
          (Some (ThroughSpec throughFrom throughTo throughClass
                             throughExtra throughFilter)))).

(** One call of a builder, as written inside a [$relations] hook. *)
Definition run_decl (this : classid) (d : decl) : M unit :=
  match d with
  | DBelongsTo model opts => belongsTo this model opts
  | DHasOne model opts => hasOne this model opts
  | DHasMany model opts => hasMany this model opts
  | DHasManyThrough model opts => hasManyThrough this model opts
  end.

Fixpoint run_decls (this : classid) (ds : list decl) : M unit :=
  match ds with
  | [] => mret tt
  | d :: ds' => run_decl this d;; run_decls this ds'
  end.

(** The body of a [$relations] is entered: noted in [calls], which the
    program itself never reads. *)
Definition record_call (this : classid) : M unit :=
  λ st, (Ok tt, State (_tableName st) (_relationMappings st) (heap st)
                      (this :: calls st)).

(** [this.$relations()]: a [TypeError] when no class on the chain defines
    the method; otherwise the call is recorded and its body runs. *)
Definition call_relations (this : classid) : M unit :=
  match dollar_relations (classes this) with
  | None => throw TypeError
  | Some ds => record_call this;; run_decls this ds
  end.

(** [static get relationMappings()] *)
Definition relationMappings (this : classid) : M jsval :=
  cur ← read_relationMappings this;
  if truthy cur then mret cur
  else
    obj ← new_object;
    write_relationMappings this obj;;
    call_relations this;;
    read_relationMappings this.

(** [static set relationMappings(mappings)] *)
Definition set_relationMappings (this : classid) (mappings : jsval) : M unit :=
  write_relationMappings this mappings.

(** The property key a declaration stores its mapping under, when its
    target resolves. *)
Definition decl_key (d : decl) : option string :=
  let key (model : target) (opts : options) (conv : string → string) :=
    match _getModelClass model with
    | Ok mc => Some (to_string (js_or (o_name opts) (JStr (conv (name (classes mc))))))
    | Throw _ => None
    end in
  match d with
  | DBelongsTo model opts | DHasOne model opts => key model opts camelCase
  | DHasMany model opts | DHasManyThrough model opts =>
      key model opts (λ n, plural (camelCase n))
  end.

Definition resolves (model : target) : bool :=
  match _getModelClass model with
  | Ok _ => true
  | Throw _ => false
  end.

(** Every class the declaration names can be found. *)
Definition decl_ok (d : decl) : bool :=
  match d with
  | DBelongsTo model _ | DHasOne model _ | DHasMany model _ => resolves model
  | DHasManyThrough model opts =>
      resolves model &&
      match model_given (th_model (default no_through (o_through opts))) with
      | Some tm => resolves tm
      | None => true
      end
  end.

(** The mapping set after the entries are assigned in order; a later entry
    overwrites an earlier one of the same key. *)
Definition assign_all (ms : gmap string relation_mapping)
    (entries : list (string * relation_mapping)) : gmap string relation_mapping :=
  foldl (λ acc e, <[e.1 := e.2]> acc) ms entries.

(** The heaps agree on every object other than [obj]. *)
Definition same_except (obj : jsval)
    (h h' : gmap loc (gmap string relation_mapping)) : Prop :=
  ∀ l, obj ≠ JObj l → h' !! l = h !! l.


(** A base hook that leaves both timestamp properties as they are. *)
Definition keeps_timestamps (hook : context → world → world) : Prop :=
  ∀ ctx w, fields (hook ctx w) !! "createdAt" = fields w !! "createdAt"
           ∧ fields (hook ctx w) !! "updatedAt" = fields w !! "updatedAt".

(** The mapping stored under [key] in the object at [l]. *)
Definition mapping_at (st : state) (l : loc) (key : string) : option relation_mapping :=
  heap st !! l ≫= λ ms, ms !! key.

(** The relation a builder declares. *)
Definition decl_kind (d : decl) : relation_kind :=
  match d with
  | DBelongsTo _ _ => BelongsToOneRelation
  | DHasOne _ _ => HasOneRelation
  | DHasMany _ _ => HasManyRelation
  | DHasManyThrough _ _ => ManyToManyRelation
  end.

(** Every truthy own table name of [tn] is the same in [tn']. *)
Definition keeps_table_names (tn tn' : gmap classid jsval) : Prop :=
  ∀ c v, tn !! c = Some v → truthy v = true → tn' !! c = Some v.

(** Every object of [h] is still in [h'], with at least the keys it had. *)
Definition keeps_keys (h h' : gmap loc (gmap string relation_mapping)) : Prop :=
  ∀ l ms, h !! l = Some ms → ∃ ms', h' !! l = Some ms' ∧ dom ms ⊆ dom ms'.



(** The path [_getModelClass] hands to [require] for a string. *)
Definition module_path (s : string) : string :=
  if String.prefix "." s || String.prefix "/" s then s
  else cwd +:+ "/src/models/" +:+ s.

(** ** Lifecycle hooks *)

(** [new Date()] reads a clock; [clock i] is its i-th reading. *)
Variable clock : nat → Z.

(** [super.$beforeInsert] and [super.$beforeUpdate] of objection's Model. *)
Variables Model_beforeInsert Model_beforeUpdate : context → world → world.

Definition new_Date (w : world) : field * world :=
  (FDate (clock (ticks w)), World (fields w) (S (ticks w))).

Definition set_field (key : string) (v : field) (w : world) : world :=
  World (<[key := v]> (fields w)) (ticks w).

(** [$beforeInsert(context)] on an instance whose constructor is [cls]. *)
Definition beforeInsert (cls : classid) (ctx : context) (w : world) : world :=
  let w := Model_beforeInsert ctx w in
  if truthy (timestamps (classes cls)) && negb (truthy (dontTouch ctx)) then
    let '(d, w) := new_Date w in
    let w := set_field "createdAt" d w in
    let '(d, w) := new_Date w in
    set_field "updatedAt" d w
  else w.

(** [$beforeUpdate(context)] *)
Definition beforeUpdate (cls : classid) (ctx : context) (w : world) : world :=
  let w := Model_beforeUpdate ctx w in
  if truthy (timestamps (classes cls)) && negb (truthy (dontTouch ctx)) then
    let '(d, w) := new_Date w in
    set_field "updatedAt" d w
  else w.

(** How objection calls the hooks on a write: [$beforeInsert(queryContext)]
    and [$beforeUpdate(opt, queryContext)], [opt] being the model options
    of the update and [queryContext] the operation context.  Both hooks of
    model.js declare one parameter, so on an update that parameter is
    bound to [opt] and the operation context is dropped. *)
Definition on_insert (cls : classid) (queryContext : context) (w : world) : world :=
  beforeInsert cls queryContext w.

Definition on_update (cls : classid) (opt queryContext : context) (w : world) : world :=
  beforeUpdate cls opt w.

(** ** Properties *)

(** What a [tableName] read returns, and the own property it leaves. *)
Lemma tableName_eq this st :
  tableName this st =
    let v := js_or (proto_lookup (_tableName st) (chain this))
                   (JStr (name (classes this))) in
    (Ok v, State (<[this := v]> (_tableName st)) (_relationMappings st)
                 (heap st) (calls st)).
Proof.
  unfold tableName, mbind, M_bind, read_tableName, write_tableName, chain.
  simpl. by rewrite lookup_insert_eq.
Qed.

Lemma proto_lookup_insert_notin own c v cs :
  c ∉ cs → proto_lookup (<[c := v]> own) cs = proto_lookup own cs.
Proof.
  induction cs as [|d cs IH]; intros Hc; [done|].
  apply not_elem_of_cons in Hc as [Hne Hc]. simpl.
  rewrite lookup_insert_ne by done. rewrite IH by done. done.
Qed.

(** C10. After a falsy value is assigned to [tableName], the next read
    returns the class's own name and leaves it cached as the own
    [_tableName] of the class. *)
Theorem tableName_falsy_assignment_falls_back (this : classid) (table : jsval) (st : state) :
  truthy table = false →
  ∃ st', tableName this (set_tableName this table st).2 = (Ok (JStr (name (classes this))), st')
         ∧ _tableName st' !! this = Some (JStr (name (classes this)))
         ∧ tableName this st' = (Ok (JStr (name (classes this))), st').
Proof.
  intros Hf. rewrite tableName_eq. unfold set_tableName, write_tableName, chain.
  cbn [snd _tableName proto_lookup _relationMappings heap calls].
  rewrite lookup_insert_eq. unfold js_or at 1 2. rewrite Hf.
  eexists; split; [reflexivity|]. split; [simpl; by rewrite lookup_insert_eq|].
  rewrite tableName_eq. unfold chain.
  cbn [snd _tableName proto_lookup _relationMappings heap calls].
  rewrite !lookup_insert_eq. unfold js_or.
  destruct (truthy (JStr (name (classes this)))); by rewrite !insert_insert_eq.
Qed.

(** *** How a builder runs *)

Lemma js_or_falsy a b : truthy a = false → js_or a b = b.
Proof. unfold js_or. by intros ->. Qed.

Lemma set_property_obj l key m st :
  set_property (JObj l) key m st =
    (Ok tt, State (_tableName st) (_relationMappings st)
                  (<[l := <[key := m]> (default ∅ (heap st !! l))]> (heap st))
                  (calls st)).
Proof. done. Qed.

Ltac run_builder :=
  unfold belongsTo, hasOne, hasMany, hasManyThrough, mbind, M_bind, lift,
    or_else, mret, M_ret, throw, read_relationMappings;
  repeat first
    [ rewrite tableName_eq
    | progress cbn [fst snd _tableName _relationMappings heap calls] ].

Ltac run_no_options :=
  run_builder;
  cbn [no_options no_through o_name o_joinFrom o_joinTo o_filter o_through
       th_model th_table th_from th_to th_extra th_filter truthy default
       from_option id model_given];
  rewrite ?(js_or_falsy JUndefined) by reflexivity;
  run_builder.

(** A builder either throws because a class is not found, or reaches its
    final assignment with only own [_tableName] properties changed. *)
Lemma run_decl_shape this d st :
  (∃ e tn, decl_ok d = false
           ∧ run_decl this d st =
               (Throw e, State tn (_relationMappings st) (heap st) (calls st)))
  ∨ (∃ tn key m, decl_ok d = true ∧ decl_key d = Some key
           ∧ run_decl this d st =
               set_property (proto_lookup (_relationMappings st) (chain this)) key m
                 (State tn (_relationMappings st) (heap st) (calls st))).
Proof.
  destruct st as [tn rm hp cl].
  destruct d as [model opts|model opts|model opts|model opts];
    unfold run_decl, decl_ok, decl_key, resolves;
    run_builder;
    (destruct (_getModelClass model) as [mc|e];
       [|left; do 2 eexists; split; reflexivity]);
    destruct (truthy (o_joinFrom opts)), (truthy (o_joinTo opts)); run_builder;
    try (right; do 3 eexists; repeat split; reflexivity).
  all: match goal with |- context [model_given ?x] =>
         destruct (model_given x) as [tm|] end;
       run_builder; [|right; do 3 eexists; repeat split; reflexivity].
  all: destruct (_getModelClass tm) as [tc|e]; run_builder;
       [|left; do 2 eexists; split; reflexivity].
  all: match goal with |- context [truthy (th_table ?x)] =>
         destruct (truthy (th_table x)) end;
       run_builder; right; do 3 eexists; repeat split; reflexivity.
Qed.

Lemma set_property_frame obj key m st r st' :
  set_property obj key m st = (r, st') →
  _tableName st' = _tableName st ∧ _relationMappings st' = _relationMappings st
  ∧ calls st' = calls st ∧ same_except obj (heap st) (heap st')
  ∧ dom (heap st) ⊆ dom (heap st').
Proof.
  destruct obj; cbv [set_property throw]; intros [= <- <-]; simpl;
    split_and!; try done.
  - intros l' Hne. apply lookup_insert_ne. congruence.
  - rewrite dom_insert_L. apply union_subseteq_r.
Qed.

(** Whatever its outcome, a builder leaves every own [_relationMappings]
    alone, calls no hook, and writes to no object but the one that
    [this._relationMappings] reads. *)
Lemma run_decl_frame this d st r st' :
  run_decl this d st = (r, st') →
  _relationMappings st' = _relationMappings st ∧ calls st' = calls st
  ∧ same_except (proto_lookup (_relationMappings st) (chain this)) (heap st) (heap st')
  ∧ dom (heap st) ⊆ dom (heap st').
Proof.
  intros Hrun.
  destruct (run_decl_shape this d st) as [(e & tn & _ & E)|(tn & key & m & _ & _ & E)];
    rewrite E in Hrun.
  - injection Hrun as <- <-. by split_and!.
  - apply set_property_frame in Hrun as (_ & ? & ? & ? & ?). done.
Qed.

Lemma run_decls_frame this ds st r st' :
  run_decls this ds st = (r, st') →
  _relationMappings st' = _relationMappings st ∧ calls st' = calls st
  ∧ same_except (proto_lookup (_relationMappings st) (chain this)) (heap st) (heap st')
  ∧ dom (heap st) ⊆ dom (heap st').
Proof.
  revert st. induction ds as [|d ds IH]; intros st Hrun.
  - injection Hrun as <- <-. by split_and!.
  - cbn [run_decls] in Hrun. unfold mbind, M_bind in Hrun.
    destruct (run_decl this d st) as [[[]|e] st1] eqn:E1;
      apply run_decl_frame in E1 as (Hrm & Hcl & Hhp & Hdom).
    + apply IH in Hrun as (Hrm' & Hcl' & Hhp' & Hdom'). rewrite Hrm in Hrm', Hhp'.
      split_and!; [congruence|congruence| |by etrans].
      intros l Hl. rewrite Hhp', Hhp; done.
    + injection Hrun as <- <-. done.
Qed.

(** With the slot holding an object and every class found, the
    declarations all succeed and are assigned to that object in order. *)
Lemma run_decls_ok this ds st l ms :
  proto_lookup (_relationMappings st) (chain this) = JObj l →
  heap st !! l = Some ms →
  forallb decl_ok ds = true →
  ∃ tn entries,
    Forall2 (λ d e, decl_key d = Some e.1) ds entries
    ∧ run_decls this ds st =
        (Ok tt, State tn (_relationMappings st)
                      (<[l := assign_all ms entries]> (heap st)) (calls st)).
Proof.
  revert st ms. induction ds as [|d ds IH]; intros st ms Hobj Hl Hok.
  - exists (_tableName st), []. split; [constructor|].
    unfold assign_all; simpl. rewrite insert_id by done. by destruct st.
  - cbn [forallb] in Hok. apply andb_prop in Hok as [Hd Hds].
    destruct (run_decl_shape this d st) as [(e & tn & Hno & _)|(tn & key & m & _ & Hkey & E)];
      [congruence|].
    rewrite Hobj, set_property_obj in E.
    cbn [_tableName _relationMappings heap calls] in E. rewrite Hl in E. simpl in E.
    destruct (IH (State tn (_relationMappings st) (<[l := <[key := m]> ms]> (heap st))
                        (calls st)) (<[key := m]> ms))
      as (tn' & entries & Hall & E'); [exact Hobj|apply lookup_insert_eq|exact Hds|].
    exists tn', ((key, m) :: entries). split; [by constructor|].
    cbn [run_decls]. unfold mbind, M_bind at 1. rewrite E. rewrite E'.
    cbn [_tableName _relationMappings heap calls assign_all foldl fst snd].
    by rewrite insert_insert_eq.
Qed.

(** *** The relation-mapping accessor *)

Lemma proto_lookup_own_insert own this v :
  proto_lookup (<[this := v]> own) (chain this) = v.
Proof. unfold chain. simpl. by rewrite lookup_insert_eq. Qed.

(** A populated slot, own or inherited, is returned as it is. *)
Lemma relationMappings_cached this st :
  truthy (proto_lookup (_relationMappings st) (chain this)) = true →
  relationMappings this st = (Ok (proto_lookup (_relationMappings st) (chain this)), st).
Proof.
  intros Ht. unfold relationMappings, mbind, M_bind, read_relationMappings.
  by rewrite Ht.
Qed.

(** Otherwise a new object becomes the own slot and the hook runs. *)
Lemma relationMappings_empty this st :
  truthy (proto_lookup (_relationMappings st) (chain this)) = false →
  relationMappings this st =
    let l := fresh (dom (heap st)) in
    (call_relations this;; read_relationMappings this)
      (State (_tableName st) (<[this := JObj l]> (_relationMappings st))
             (<[l := ∅]> (heap st)) (calls st)).
Proof.
  intros Ht. unfold relationMappings, mbind at 1, M_bind at 1, read_relationMappings at 1.
  by rewrite Ht.
Qed.


(** C1 (as the code has it). A request changes no other class's own slot
    and no mapping object that already exists, and a builder writes only
    to the object that the declaring class's slot read refers to.  A class
    that sees no populated slot on its prototype chain gets a new object
    as its own slot, and its hook is called.  A class that sees a populated
    slot, its own or one inherited from a superclass, is handed that same
    object: the state is unchanged and its hook is not called. *)
Theorem relationMappings_isolation (this : classid) (st : state)
    (r : outcome jsval) (st' : state) :
  relationMappings this st = (r, st') →
  (∀ other, other ≠ this → _relationMappings st' !! other = _relationMappings st !! other)
  ∧ (∀ l, l ∈ dom (heap st) → heap st' !! l = heap st !! l)
  ∧ (∀ d r1 st1, run_decl this d st = (r1, st1) →
       _relationMappings st1 = _relationMappings st
       ∧ same_except (proto_lookup (_relationMappings st) (chain this)) (heap st) (heap st1))
  ∧ (truthy (proto_lookup (_relationMappings st) (chain this)) = false →
       ∃ l, (l ∉ dom (heap st)) ∧ l ∈ dom (heap st')
            ∧ _relationMappings st' !! this = Some (JObj l)
            ∧ (∀ v, r = Ok v → v = JObj l)
            ∧ (is_Some (dollar_relations (classes this)) → calls st' = this :: calls st))
  ∧ (truthy (proto_lookup (_relationMappings st) (chain this)) = true →
       r = Ok (proto_lookup (_relationMappings st) (chain this)) ∧ st' = st).
Proof.
  intros Hrun.
  assert (Hdecl : ∀ d r1 st1, run_decl this d st = (r1, st1) →
       _relationMappings st1 = _relationMappings st
       ∧ same_except (proto_lookup (_relationMappings st) (chain this)) (heap st) (heap st1)).
  { intros d r1 st1 E. apply run_decl_frame in E as (? & _ & ? & _). done. }
  destruct (truthy (proto_lookup (_relationMappings st) (chain this))) eqn:Hslot.
  { rewrite relationMappings_cached in Hrun by done. injection Hrun as <- <-.
    split_and!; done. }
  rewrite relationMappings_empty in Hrun by done. cbn zeta in Hrun.
  set (l := fresh (dom (heap st))) in Hrun.
  assert (Hfresh : l ∉ dom (heap st)) by apply is_fresh.
  unfold call_relations, mbind, M_bind, read_relationMappings, record_call in Hrun.
  destruct (dollar_relations (classes this)) as [ds|] eqn:Hhook.
  - cbn [_tableName _relationMappings heap calls] in Hrun.
    match type of Hrun with context [run_decls this ds ?s] =>
      destruct (run_decls this ds s) as [r2 st2] eqn:E2 end.
    apply run_decls_frame in E2 as (Hrm & Hcl & Hhp & Hdom).
    cbn [_tableName _relationMappings heap calls] in Hrm, Hcl, Hhp, Hdom.
    rewrite proto_lookup_own_insert in Hhp.
    assert (Hl2 : ∀ l', l' ∈ dom (heap st) → heap st2 !! l' = heap st !! l').
    { intros l' Hl'. rewrite Hhp by congruence. apply lookup_insert_ne. congruence. }
    assert (Hin : l ∈ dom (heap st2)).
    { apply Hdom, elem_of_dom. by rewrite lookup_insert_eq. }
    assert (Hown : _relationMappings st2 !! this = Some (JObj l)).
    { rewrite Hrm. apply lookup_insert_eq. }
    assert (Hothers : ∀ other, other ≠ this →
              _relationMappings st2 !! other = _relationMappings st !! other).
    { intros other Hne. rewrite Hrm. by apply lookup_insert_ne. }
    destruct r2 as [[]|e]; injection Hrun as <- <-.
    + rewrite Hown.
      split_and!; try done. intros _. exists l. split_and!; try done. congruence.
    + split_and!; try done. intros _. exists l. split_and!; done.
  - cbv [throw] in Hrun. injection Hrun as <- <-.
    cbn [_tableName _relationMappings heap calls].
    split_and!; try done.
    + intros other Hne. by rewrite lookup_insert_ne.
    + intros l' Hl'. apply lookup_insert_ne. congruence.
    + intros _. exists l. rewrite lookup_insert_eq. split_and!; try done.
      apply elem_of_dom. by rewrite lookup_insert_eq.
Qed.

(** *** Convention defaults *)


(** After the table names of [a] and then [b] were read, each is the own
    [_tableName] of its class: reading either again returns the same value
    and changes nothing. *)
Lemma js_or_again a b : js_or (js_or a b) b = js_or a b.
Proof.
  unfold js_or. destruct (truthy a) eqn:Ha; [by rewrite Ha|]. by destruct (truthy b).
Qed.

Lemma tableName_own this st v :
  _tableName st !! this = Some v →
  js_or v (JStr (name (classes this))) = v →
  tableName this st = (Ok v, st).
Proof.
  intros Hown Hv. rewrite tableName_eq. unfold chain. cbn [proto_lookup].
  rewrite Hown. cbn zeta. rewrite Hv, insert_id by done. by destruct st.
Qed.

Lemma tableName_after_reads a b tn rm hp cl :
  let va := js_or (proto_lookup tn (chain a)) (JStr (name (classes a))) in
  let vb := js_or (proto_lookup (<[a := va]> tn) (chain b)) (JStr (name (classes b))) in
  let st' := State (<[b := vb]> (<[a := va]> tn)) rm hp cl in
  tableName a st' = (Ok va, st') ∧ tableName b st' = (Ok vb, st').
Proof.
  intros va vb st'. split.
  - destruct (decide (a = b)) as [<-|Hne].
    + assert (vb = va) as Hsame.
      { subst vb. rewrite proto_lookup_own_insert. apply js_or_again. }
      apply tableName_own; [|apply js_or_again].
      subst st'. cbn [_tableName]. rewrite Hsame. apply lookup_insert_eq.
    + apply tableName_own; [|apply js_or_again].
      subst st'. cbn [_tableName]. rewrite lookup_insert_ne by done.
      apply lookup_insert_eq.
  - apply tableName_own; [|apply js_or_again]. apply lookup_insert_eq.
Qed.

Lemma mapping_at_stored tn rm hp cl l key m ms :
  mapping_at (State tn rm (<[l := <[key := m]> ms]> hp) cl) l key = Some m.
Proof.
  unfold mapping_at. cbn [heap]. rewrite lookup_insert_eq. simpl. apply lookup_insert_eq.
Qed.

Ltac run_defaults Hmodel Hslot :=
  rewrite !tableName_eq; cbn zeta; cbn [fst snd _tableName];
  do 2 eexists;
  unfold belongsTo, hasOne, hasMany; rewrite Hmodel; run_no_options;
  rewrite Hslot, set_property_obj; cbn [_tableName _relationMappings heap calls];
  eexists _, _; split; [reflexivity|]; split; [reflexivity|];
  split; [reflexivity|];
  split; [apply tableName_after_reads|];
  split; [apply tableName_after_reads|];
  split; [apply mapping_at_stored|];
  cbn [relation modelClass join from to];
  split_and!; try reflexivity.

(** C3. [belongsTo] with no options stores, under the camel-cased target
    name, a mapping whose [from] is the target's table name, a dot, the
    camel-cased owner name and the upper-first owner id column, and whose
    [to] is the owner's table name, a dot and the owner id column.  The
    table names are those the two [tableName] reads return, the target's
    first, and those that both classes keep once the declaration is made.
    For Pet and Person with default table names and id column "id" this
    is "Person.petId" and "Pet.id". *)
Theorem belongsTo_defaults (O T : classid) (model : target) (l : loc) (st : state) :
  _getModelClass model = Ok T →
  proto_lookup (_relationMappings st) (chain O) = JObj l →
  ∃ tT tO st' m,
    (tableName T st).1 = Ok tT
    ∧ (tableName O (tableName T st).2).1 = Ok tO
    ∧ belongsTo O model no_options st = (Ok tt, st')
    ∧ tableName T st' = (Ok tT, st')
    ∧ tableName O st' = (Ok tO, st')
    ∧ mapping_at st' l (camelCase (name (classes T))) = Some m
    ∧ relation m = BelongsToOneRelation ∧ modelClass m = T
    ∧ from (join m) = JStr (to_string tT +:+ "." +:+ camelCase (name (classes O))
                              +:+ upperFirst (idColumn (classes O)))
    ∧ to (join m) = JStr (to_string tO +:+ "." +:+ idColumn (classes O))
    ∧ (name (classes O) = "Pet" → name (classes T) = "Person" →
       idColumn (classes O) = "id" →
       camelCase "Pet" = "pet" → upperFirst "id" = "Id" →
       truthy (proto_lookup (_tableName st) (chain T)) = false →
       truthy (proto_lookup (_tableName st) (chain O)) = false →
       T ∉ chain O →
       from (join m) = JStr "Person.petId" ∧ to (join m) = JStr "Pet.id").
Proof.
  intros Hmodel Hslot. run_defaults Hmodel Hslot.
  intros HnO HnT Hid Hc Hu HfT HfO Hnot.
  rewrite (js_or_falsy _ _ HfT), proto_lookup_insert_notin, (js_or_falsy _ _ HfO) by done.
  cbn [to_string]. rewrite HnO, HnT, Hid, Hc, Hu. done.
Qed.

(** C4. [hasOne] with no options stores, under the camel-cased target
    name, a mapping whose [from] is the owner's table name, a dot, the
    camel-cased target name and the upper-first target id column, and
    whose [to] is the target's table name, a dot and the target id column.
    The table names are those the two [tableName] reads return, the
    owner's first, and those that both classes keep once the declaration
    is made. *)
Theorem hasOne_defaults (O T : classid) (model : target) (l : loc) (st : state) :
  _getModelClass model = Ok T →
  proto_lookup (_relationMappings st) (chain O) = JObj l →
  ∃ tO tT st' m,
    (tableName O st).1 = Ok tO
    ∧ (tableName T (tableName O st).2).1 = Ok tT
    ∧ hasOne O model no_options st = (Ok tt, st')
    ∧ tableName O st' = (Ok tO, st')
    ∧ tableName T st' = (Ok tT, st')
    ∧ mapping_at st' l (camelCase (name (classes T))) = Some m
    ∧ relation m = HasOneRelation ∧ modelClass m = T
    ∧ from (join m) = JStr (to_string tO +:+ "." +:+ camelCase (name (classes T))
                              +:+ upperFirst (idColumn (classes T)))
    ∧ to (join m) = JStr (to_string tT +:+ "." +:+ idColumn (classes T)).
Proof.
  intros Hmodel Hslot. run_defaults Hmodel Hslot.
Qed.

(** C5. [hasMany] with no options stores, under the plural of the
    camel-cased target name, a mapping whose [from] is the target's table
    name, a dot, the camel-cased owner name and the upper-first owner id
    column, and whose [to] is the owner's table name, a dot and the owner
    id column.  The table names are those the two [tableName] reads
    return, the target's first, and those that both classes keep once the
    declaration is made.  For Person and Pet with default table names and
    id column "id" the name is "pets" and the columns are "Pet.personId"
    and "Person.id". *)
Theorem hasMany_defaults (O T : classid) (model : target) (l : loc) (st : state) :
  _getModelClass model = Ok T →
  proto_lookup (_relationMappings st) (chain O) = JObj l →
  ∃ tT tO st' m,
    (tableName T st).1 = Ok tT
    ∧ (tableName O (tableName T st).2).1 = Ok tO
    ∧ hasMany O model no_options st = (Ok tt, st')
    ∧ tableName T st' = (Ok tT, st')
    ∧ tableName O st' = (Ok tO, st')
    ∧ mapping_at st' l (plural (camelCase (name (classes T)))) = Some m
    ∧ relation m = HasManyRelation ∧ modelClass m = T
    ∧ from (join m) = JStr (to_string tT +:+ "." +:+ camelCase (name (classes O))
                              +:+ upperFirst (idColumn (classes O)))
    ∧ to (join m) = JStr (to_string tO +:+ "." +:+ idColumn (classes O))
    ∧ (name (classes O) = "Person" → name (classes T) = "Pet" →
       idColumn (classes O) = "id" →
       camelCase "Person" = "person" → camelCase "Pet" = "pet" →
       plural "pet" = "pets" → upperFirst "id" = "Id" →
       truthy (proto_lookup (_tableName st) (chain T)) = false →
       truthy (proto_lookup (_tableName st) (chain O)) = false →
       T ∉ chain O →
       mapping_at st' l "pets" = Some m
       ∧ from (join m) = JStr "Pet.personId" ∧ to (join m) = JStr "Person.id").
Proof.
  intros Hmodel Hslot. run_defaults Hmodel Hslot.
  intros HnO HnT Hid HcO HcT Hp Hu HfT HfO Hnot.
  rewrite (js_or_falsy _ _ HfT), proto_lookup_insert_notin, (js_or_falsy _ _ HfO) by done.
  cbn [to_string]. rewrite HnO, HnT, Hid, HcO, Hu.
  split; [|done].
  rewrite <- Hp, <- HcT, <- HnT. apply mapping_at_stored.
Qed.

(** Reading a table name again returns the same value and changes nothing. *)
Lemma tableName_again this st :
  tableName this (tableName this st).2 = tableName this st.
Proof.
  rewrite !tableName_eq. cbn zeta. cbn [snd _tableName _relationMappings heap calls].
  rewrite proto_lookup_own_insert.
  by rewrite js_or_again, insert_insert_eq.
Qed.

(** A table name that was read stays the own [_tableName] of the class,
    so a later read returns it again with nothing changed. *)
Lemma tableName_stored this tn rm' hp' cl' :
  let v := js_or (proto_lookup tn (chain this)) (JStr (name (classes this))) in
  tableName this (State (<[this := v]> tn) rm' hp' cl') =
    (Ok v, State (<[this := v]> tn) rm' hp' cl').
Proof.
  intros v.
  pose proof (tableName_again this (State tn rm' hp' cl')) as Hagain.
  rewrite !tableName_eq in Hagain. cbn zeta in Hagain.
  cbn [snd _tableName _relationMappings heap calls] in Hagain.
  rewrite tableName_eq. cbn zeta. cbn [_tableName _relationMappings heap calls].
  fold v in Hagain. rewrite insert_insert_eq in Hagain. rewrite insert_insert_eq.
  exact Hagain.
Qed.



(** *** Timestamps *)

(** C7. With [timestamps] truthy on the class and no [dontTouch] in the
    context, on a clock that never runs backwards, [$beforeInsert] sets
    [createdAt] and [updatedAt] to dates read between the clock reading at
    the call and the reading at the return, and [$beforeUpdate] sets
    [updatedAt] to such a date and leaves [createdAt] as the base hook
    left it, which is as it was when the base hook keeps it. *)
Theorem timestamps_stamped (cls : classid) (ctx : context) (w : world) :
  (∀ i j : nat, (i ≤ j)%nat → (clock i ≤ clock j)%Z) →
  (∀ c w0, (ticks w0 ≤ ticks (Model_beforeInsert c w0))%nat) →
  (∀ c w0, (ticks w0 ≤ ticks (Model_beforeUpdate c w0))%nat) →
  keeps_timestamps Model_beforeUpdate →
  truthy (timestamps (classes cls)) = true →
  truthy (dontTouch ctx) = false →
  let wi := beforeInsert cls ctx w in
  let wu := beforeUpdate cls ctx w in
  (∃ tc tu,
     fields wi !! "createdAt" = Some (FDate tc)
     ∧ fields wi !! "updatedAt" = Some (FDate tu)
     ∧ (clock (ticks w) ≤ tc ≤ clock (ticks wi))%Z
     ∧ (clock (ticks w) ≤ tu ≤ clock (ticks wi))%Z)
  ∧ (∃ tu,
       fields wu !! "updatedAt" = Some (FDate tu)
       ∧ (clock (ticks w) ≤ tu ≤ clock (ticks wu))%Z
       ∧ fields wu !! "createdAt" = fields w !! "createdAt").
Proof.
  intros Hmono Hti Htu Hkeep Hts Hctx wi wu. subst wi wu.
  unfold beforeInsert, beforeUpdate, new_Date, set_field. rewrite Hts, Hctx.
  cbn [andb negb fields ticks].
  specialize (Hti ctx w). specialize (Htu ctx w).
  destruct (Hkeep ctx w) as [Hc _].
  split.
  - eexists _, _. split; [by rewrite lookup_insert_ne, lookup_insert_eq|].
    split; [apply lookup_insert_eq|].
    split; split; apply Hmono; lia.
  - eexists. split; [apply lookup_insert_eq|].
    split; [split; apply Hmono; lia|].
    by rewrite lookup_insert_ne.
Qed.

(** C8 (where the code breaks it). With [timestamps] truthy on the class
    and [dontTouch] set in the operation context, an insert leaves
    [createdAt] and [updatedAt] as they were, but an update does not: the
    hook reads [dontTouch] on its one parameter, which on an update is the
    model options and not the operation context, so it reads the clock and
    sets [updatedAt] all the same. *)
Theorem update_ignores_operation_context (cls : classid) (opt queryContext : context)
    (w : world) :
  keeps_timestamps Model_beforeInsert →
  truthy (timestamps (classes cls)) = true →
  truthy (dontTouch queryContext) = true →
  truthy (dontTouch opt) = false →
  let wi := on_insert cls queryContext w in
  let wu := on_update cls opt queryContext w in
  fields wi !! "createdAt" = fields w !! "createdAt"
  ∧ fields wi !! "updatedAt" = fields w !! "updatedAt"
  ∧ fields wu !! "updatedAt" = Some (FDate (clock (ticks (Model_beforeUpdate opt w))))
  ∧ ticks wu = S (ticks (Model_beforeUpdate opt w)).
Proof.
  intros Hkeep Hts Hskip Hopt wi wu. subst wi wu.
  unfold on_insert, on_update, beforeInsert, beforeUpdate, new_Date, set_field.
  rewrite Hts, Hskip, Hopt. cbn [andb negb fields ticks].
  destruct (Hkeep queryContext w) as [Hc Hu].
  split_and!; [exact Hc|exact Hu|apply lookup_insert_eq|reflexivity].
Qed.

(** ** Further properties of the accessors *)

(** X1. A truthy value assigned to [tableName] is what the next read
    returns, whatever the class inherited or held before, and the read
    changes nothing more. *)
Theorem tableName_assignment_round_trip (this : classid) (table : jsval) (st : state) :
  truthy table = true →
  tableName this (set_tableName this table st).2
  = (Ok table, (set_tableName this table st).2).
Proof.
  intros Ht. apply tableName_own.
  - cbn. apply lookup_insert_eq.
  - unfold js_or. by rewrite Ht.
Qed.

(** X2. A class without a table name of its own takes the table name of
    the nearest superclass that has one: read after its parent's table
    name was read, it returns the parent's table name, not its own class
    name, and keeps it as its own. *)
Theorem tableName_inherited (child parent : classid) (rest : list classid)
    (v : jsval) (st st1 : state) :
  superclasses (classes child) = parent :: rest →
  _tableName st !! child = None →
  tableName parent st = (Ok v, st1) →
  truthy v = true →
  ∃ st2, tableName child st1 = (Ok v, st2)
         ∧ _tableName st2 !! child = Some v
         ∧ tableName child st2 = (Ok v, st2).
Proof.
  intros Hsup Hown Hparent Hv.
  rewrite tableName_eq in Hparent. cbn zeta in Hparent.
  injection Hparent as Hval <-. rewrite Hval.
  assert (Hsame : js_or v (JStr (name (classes child))) = v)
    by (unfold js_or; by rewrite Hv).
  assert (Hread : proto_lookup (<[parent := v]> (_tableName st)) (chain child) = v).
  { unfold chain. rewrite Hsup. cbn [proto_lookup].
    destruct (decide (parent = child)) as [->|Hne].
    - by rewrite lookup_insert_eq.
    - rewrite lookup_insert_ne, Hown, lookup_insert_eq by done. done. }
  rewrite tableName_eq. cbn zeta. cbn [_tableName _relationMappings heap calls].
  rewrite Hread, Hsame.
  eexists. split; [reflexivity|]. split; [apply lookup_insert_eq|].
  apply tableName_own; [apply lookup_insert_eq|exact Hsame].
Qed.

(** X3. Reading a table name a second time returns the same value and
    leaves the state as the first read left it; the first read writes
    nothing but the own [_tableName] of the class it is made on. *)
Theorem tableName_read_is_stable (this : classid) (st : state) :
  ∃ v st1,
    tableName this st = (Ok v, st1)
    ∧ tableName this st1 = (Ok v, st1)
    ∧ (∀ other, other ≠ this → _tableName st1 !! other = _tableName st !! other)
    ∧ _relationMappings st1 = _relationMappings st
    ∧ heap st1 = heap st ∧ calls st1 = calls st.
Proof.
  rewrite tableName_eq. cbn zeta.
  eexists _, _. split; [reflexivity|]. split; [apply tableName_stored|].
  split_and!; try reflexivity.
  intros other Hne. by apply lookup_insert_ne.
Qed.

(** X4. Reading the table name of a class that is not on the prototype
    chain of [this] does not change what a read on [this] returns. *)
Theorem tableName_unrelated_read (this other : classid) (st : state) :
  other ∉ chain this →
  (tableName this (tableName other st).2).1 = (tableName this st).1.
Proof.
  intros Hnot. rewrite !tableName_eq. cbn zeta.
  cbn [fst snd _tableName]. by rewrite proto_lookup_insert_notin.
Qed.

(** The first request on a class that sees no populated slot, in full. *)
Lemma relationMappings_first this ds st :
  truthy (proto_lookup (_relationMappings st) (chain this)) = false →
  dollar_relations (classes this) = Some ds →
  forallb decl_ok ds = true →
  ∃ tn entries,
    Forall2 (λ d e, decl_key d = Some e.1) ds entries
    ∧ relationMappings this st =
        let l := fresh (dom (heap st)) in
        (Ok (JObj l),
         State tn (<[this := JObj l]> (_relationMappings st))
               (<[l := assign_all ∅ entries]> (heap st)) (this :: calls st)).
Proof.
  intros Hempty Hhook Hok.
  rewrite relationMappings_empty by done. cbn zeta.
  set (l := fresh (dom (heap st))).
  set (st0 := State (_tableName st) (<[this := JObj l]> (_relationMappings st))
                    (<[l := ∅]> (heap st)) (this :: calls st)).
  destruct (run_decls_ok this ds st0 l ∅) as (tn & entries & Hkeys & Hrun);
    [apply proto_lookup_own_insert|apply lookup_insert_eq|done|].
  exists tn, entries. split; [done|].
  unfold call_relations. rewrite Hhook.
  unfold mbind, M_bind, read_relationMappings, record_call.
  cbn [_tableName _relationMappings heap calls]. fold st0. rewrite Hrun.
  cbn [_tableName _relationMappings heap calls st0].
  by rewrite proto_lookup_own_insert, insert_insert_eq.
Qed.

(** X5. A truthy value assigned to [relationMappings] is what the next
    request returns; the request changes nothing, so the hook is not
    called and no object is made. *)
Theorem relationMappings_assignment_round_trip (this : classid) (mappings : jsval)
    (st : state) :
  truthy mappings = true →
  relationMappings this (set_relationMappings this mappings st).2
  = (Ok mappings, (set_relationMappings this mappings st).2).
Proof.
  intros Ht. rewrite relationMappings_cached; cbn [set_relationMappings
    write_relationMappings snd _relationMappings];
    rewrite proto_lookup_own_insert; done.
Qed.

(** X6. A falsy value assigned to [relationMappings] empties the slot of
    the class even below a superclass whose slot is populated: the next
    request calls the class's own hook and returns a new object, which
    becomes the class's own slot. *)
Theorem relationMappings_falsy_assignment_rebuilds (this : classid) (mappings : jsval)
    (ds : list decl) (st : state) :
  truthy mappings = false →
  dollar_relations (classes this) = Some ds →
  forallb decl_ok ds = true →
  ∃ l st1,
    relationMappings this (set_relationMappings this mappings st).2 = (Ok (JObj l), st1)
    ∧ (l ∉ dom (heap st))
    ∧ _relationMappings st1 !! this = Some (JObj l)
    ∧ calls st1 = this :: calls st
    ∧ (∀ other, other ≠ this →
         _relationMappings st1 !! other = _relationMappings st !! other).
Proof.
  intros Hf Hhook Hok.
  destruct (relationMappings_first this ds (set_relationMappings this mappings st).2)
    as (tn & entries & _ & Hrun); [|done|done|].
  { cbn [set_relationMappings write_relationMappings snd _relationMappings].
    by rewrite proto_lookup_own_insert. }
  cbn zeta in Hrun. rewrite Hrun.
  cbn [set_relationMappings write_relationMappings snd _relationMappings heap calls].
  eexists _, _. split; [reflexivity|].
  cbn [_relationMappings heap calls].
  split_and!; [apply is_fresh|apply lookup_insert_eq|done|].
  intros other Hne. by rewrite !lookup_insert_ne.
Qed.

(** X7. On a class that sees no populated slot and has no [$relations] on
    its prototype chain, the first request throws a [TypeError] but leaves
    the new empty object as the class's slot: the second request returns
    that empty object and throws nothing. *)
Theorem relationMappings_without_hook (this : classid) (st : state) :
  truthy (proto_lookup (_relationMappings st) (chain this)) = false →
  dollar_relations (classes this) = None →
  ∃ l st1,
    relationMappings this st = (Throw TypeError, st1)
    ∧ relationMappings this st1 = (Ok (JObj l), st1)
    ∧ (l ∉ dom (heap st))
    ∧ heap st1 !! l = Some ∅
    ∧ calls st1 = calls st.
Proof.
  intros Hempty Hhook.
  rewrite relationMappings_empty by done. cbn zeta.
  unfold call_relations. rewrite Hhook.
  unfold mbind, M_bind, throw.
  eexists _, _. split; [reflexivity|].
  split.
  { rewrite relationMappings_cached;
      cbn [_relationMappings]; by rewrite proto_lookup_own_insert. }
  cbn [heap calls]. split_and!; [apply is_fresh|apply lookup_insert_eq|done].
Qed.



(** ** Further properties of the builders *)

Lemma keeps_table_names_refl tn : keeps_table_names tn tn.
Proof. by intros c v. Qed.

Lemma keeps_table_names_trans tn1 tn2 tn3 :
  keeps_table_names tn1 tn2 → keeps_table_names tn2 tn3 → keeps_table_names tn1 tn3.
Proof. intros H12 H23 c v Hc Hv. apply H23; [|done]. by apply H12. Qed.

(** A [tableName] read rewrites a truthy own table name with itself. *)
Lemma keeps_table_names_read tn tn' c :
  keeps_table_names tn tn' →
  keeps_table_names tn
    (<[c := js_or (proto_lookup tn' (chain c)) (JStr (name (classes c)))]> tn').
Proof.
  intros Hkeep c0 v Hc0 Hv. specialize (Hkeep c0 v Hc0 Hv).
  destruct (decide (c = c0)) as [->|Hne].
  - rewrite lookup_insert_eq. unfold chain. cbn [proto_lookup]. rewrite Hkeep.
    unfold js_or. by rewrite Hv.
  - by rewrite lookup_insert_ne.
Qed.

Ltac builder_ends_with side :=
  eexists; split; [|side];
  [repeat apply keeps_table_names_read; apply keeps_table_names_refl].
Ltac builder_ends_thrown :=
  builder_ends_with ltac:(left; eexists; split; reflexivity).
Ltac builder_ends_stored :=
  builder_ends_with ltac:(right; do 2 eexists; repeat split; reflexivity).

(** How a builder ends: it throws for a class that is not found, or it
    reaches its assignment with a mapping of its own kind; until then it
    has only read table names. *)
Lemma run_decl_effect this d st :
  ∃ tn, keeps_table_names (_tableName st) tn
    ∧ ((∃ e, decl_ok d = false
             ∧ run_decl this d st =
                 (Throw e, State tn (_relationMappings st) (heap st) (calls st)))
       ∨ (∃ key m, decl_ok d = true ∧ decl_key d = Some key
             ∧ relation m = decl_kind d
             ∧ run_decl this d st =
                 set_property (proto_lookup (_relationMappings st) (chain this)) key m
                   (State tn (_relationMappings st) (heap st) (calls st)))).
Proof.
  destruct st as [tn rm hp cl].
  destruct d as [model opts|model opts|model opts|model opts];
    unfold run_decl, decl_ok, decl_key, resolves, decl_kind;
    run_builder;
    (destruct (_getModelClass model) as [mc|e]; [|builder_ends_thrown]);
    destruct (truthy (o_joinFrom opts)), (truthy (o_joinTo opts)); run_builder;
    try builder_ends_stored.
  all: match goal with |- context [model_given ?x] =>
         destruct (model_given x) as [tm|] end;
       run_builder; [|builder_ends_stored].
  all: destruct (_getModelClass tm) as [tc|e]; run_builder; [|builder_ends_thrown].
  all: match goal with |- context [truthy (th_table ?x)] =>
         destruct (truthy (th_table x)) end;
       run_builder; builder_ends_stored.
Qed.

(** X9. A builder given the name of a model that [require] cannot load
    throws at once, naming the path it asked for (the string itself when
    it starts with a dot or a slash, else under the models directory of
    the working directory), and changes nothing. *)
Theorem unresolved_target_fails_fast (this : classid) (s : string) (opts : options)
    (st : state) :
  require (module_path s) = None →
  Forall (λ build : target → options → decl,
            run_decl this (build (TStr s) opts) st
            = (Throw (ModuleNotFound (module_path s)), st))
         [DBelongsTo; DHasOne; DHasMany; DHasManyThrough].
Proof.
  intros Hnone. unfold module_path in *.
  repeat constructor;
    unfold run_decl, belongsTo, hasOne, hasMany, hasManyThrough, mbind, M_bind, lift,
      _getModelClass;
    by rewrite Hnone.
Qed.

(** X10. With a name, a [joinFrom] and a [joinTo] given, [belongsTo],
    [hasOne] and [hasMany] store exactly these under the given name, with
    the given filter or [null], and read no table name: no class gets a
    cached [_tableName] from the declaration. *)
Theorem explicit_overrides_are_kept (this mc : classid) (model : target)
    (n jf jt f : jsval) (th : option through_options) (l : loc) (st : state) :
  _getModelClass model = Ok mc →
  truthy n = true → truthy jf = true → truthy jt = true →
  proto_lookup (_relationMappings st) (chain this) = JObj l →
  Forall (λ build : target → options → decl,
            ∃ st', run_decl this (build model (Options n jf jt f th)) st = (Ok tt, st')
                   ∧ _tableName st' = _tableName st
                   ∧ mapping_at st' l (to_string n)
                     = Some (RelationMapping (decl_kind (build model no_options)) mc
                               (js_or f JNull) (JoinSpec jf jt None)))
         [DBelongsTo; DHasOne; DHasMany].
Proof.
  intros Hmodel Hn Hjf Hjt Hslot.
  repeat constructor;
    unfold run_decl, belongsTo, hasOne, hasMany, decl_kind; rewrite Hmodel;
    run_builder; cbn [o_name o_joinFrom o_joinTo o_filter];
    rewrite Hjf, Hjt; run_builder; rewrite Hslot, set_property_obj;
    (eexists; split; [reflexivity|]); cbn [_tableName];
    (split; [reflexivity|]);
    unfold js_or at 1; rewrite Hn; apply mapping_at_stored.
Qed.

(** X11. [hasManyThrough] with no options stores, under the plural of the
    camel-cased target name, a many-to-many mapping whose [from] is the
    owner's table name, a dot and the owner id column and whose [to] is
    the target's table name, a dot and the target id column, the owner's
    table name being read first; filter, through model, extra columns and
    through filter are [null] or absent. *)
Theorem hasManyThrough_defaults (O T : classid) (model : target) (l : loc) (st : state) :
  _getModelClass model = Ok T →
  proto_lookup (_relationMappings st) (chain O) = JObj l →
  ∃ tO tT st' m ts,
    (tableName O st).1 = Ok tO
    ∧ (tableName T (tableName O st).2).1 = Ok tT
    ∧ hasManyThrough O model no_options st = (Ok tt, st')
    ∧ tableName O st' = (Ok tO, st')
    ∧ tableName T st' = (Ok tT, st')
    ∧ mapping_at st' l (plural (camelCase (name (classes T)))) = Some m
    ∧ relation m = ManyToManyRelation ∧ modelClass m = T ∧ filter m = JNull
    ∧ from (join m) = JStr (to_string tO +:+ "." +:+ idColumn (classes O))
    ∧ to (join m) = JStr (to_string tT +:+ "." +:+ idColumn (classes T))
    ∧ through (join m) = Some ts
    ∧ ts_modelClass ts = None ∧ ts_extra ts = JNull ∧ ts_filter ts = JNull.
Proof.
  intros Hmodel Hslot.
  rewrite !tableName_eq. cbn zeta. cbn [fst snd _tableName].
  do 2 eexists.
  unfold hasManyThrough. rewrite Hmodel. run_no_options.
  rewrite Hslot, set_property_obj. cbn [_tableName _relationMappings heap calls].
  eexists _, _, _. split; [reflexivity|]. split; [reflexivity|].
  split; [reflexivity|].
  split; [apply tableName_after_reads|].
  split; [apply tableName_after_reads|].
  split; [apply mapping_at_stored|].
  cbn [relation modelClass filter join from to through ts_modelClass ts_extra ts_filter].
  split_and!; reflexivity.
Qed.

(** X12. Two declarations on the same class that resolve to the same name
    do not add up: the second overwrites the first, so the set holds one
    mapping under that name, of the second declaration's kind, and gains
    no other key. *)
Theorem same_name_declaration_overwrites (this : classid) (d1 d2 : decl) (key : string)
    (l : loc) (ms : gmap string relation_mapping) (st : state) :
  decl_ok d1 = true → decl_ok d2 = true →
  decl_key d1 = Some key → decl_key d2 = Some key →
  proto_lookup (_relationMappings st) (chain this) = JObj l →
  heap st !! l = Some ms →
  ∃ st1 st2 m ms2,
    run_decl this d1 st = (Ok tt, st1)
    ∧ run_decl this d2 st1 = (Ok tt, st2)
    ∧ heap st2 !! l = Some ms2
    ∧ ms2 !! key = Some m ∧ relation m = decl_kind d2
    ∧ dom ms2 = {[key]} ∪ dom ms
    ∧ (∀ k, k ≠ key → ms2 !! k = ms !! k).
Proof.
  intros Hok1 Hok2 Hk1 Hk2 Hslot Hl.
  destruct (run_decl_effect this d1 st)
    as (tn1 & _ & [(e & Hno & _)|(k1 & m1 & _ & Hkey1 & _ & E1)]); [congruence|].
  rewrite Hslot, set_property_obj in E1.
  cbn [_tableName _relationMappings heap calls] in E1. rewrite Hl in E1.
  cbn [default from_option id] in E1.
  assert (k1 = key) as -> by congruence.
  match type of E1 with _ = (_, ?s) => set (st1 := s) in * end.
  destruct (run_decl_effect this d2 st1)
    as (tn2 & _ & [(e & Hno & _)|(k2 & m2 & _ & Hkey2 & Hkind2 & E2)]); [congruence|].
  assert (k2 = key) as -> by congruence.
  subst st1. cbn [_tableName _relationMappings heap calls] in E2.
  rewrite Hslot, set_property_obj in E2.
  cbn [_tableName _relationMappings heap calls] in E2.
  rewrite lookup_insert_eq in E2. cbn [default from_option id] in E2.
  rewrite !insert_insert_eq in E2.
  eexists _, _, m2, _. split; [exact E1|]. split; [exact E2|].
  cbn [heap]. split; [apply lookup_insert_eq|].
  split; [apply lookup_insert_eq|]. split; [exact Hkind2|].
  split; [apply dom_insert_L|].
  intros k Hne. by apply lookup_insert_ne.
Qed.

(** X13. A builder called on a class that sees no object in its slot, as
    happens outside a hook before any request, throws a [TypeError] at
    its last step: nothing is stored and no slot changes, although the
    table names it read on the way stay cached. *)
Theorem builder_without_slot_throws (this : classid) (d : decl) (st : state) :
  decl_ok d = true →
  (∀ l, proto_lookup (_relationMappings st) (chain this) ≠ JObj l) →
  ∃ st', run_decl this d st = (Throw TypeError, st')
         ∧ heap st' = heap st
         ∧ _relationMappings st' = _relationMappings st
         ∧ calls st' = calls st
         ∧ keeps_table_names (_tableName st) (_tableName st').
Proof.
  intros Hok Hslot.
  destruct (run_decl_effect this d st)
    as (tn & Hkeep & [(e & Hno & _)|(key & m & _ & _ & _ & E)]); [congruence|].
  rewrite E.
  destruct (proto_lookup (_relationMappings st) (chain this)) eqn:Hobj;
    try (eexists; split; [reflexivity|]; by split_and!).
  by destruct (Hslot l).
Qed.

(** ** What declarations and requests keep *)

Lemma keeps_keys_refl h : keeps_keys h h.
Proof. intros l ms Hl. by exists ms. Qed.

Lemma keeps_keys_trans h1 h2 h3 :
  keeps_keys h1 h2 → keeps_keys h2 h3 → keeps_keys h1 h3.
Proof.
  intros H12 H23 l ms Hl.
  destruct (H12 l ms Hl) as (ms2 & Hl2 & Hsub2).
  destruct (H23 l ms2 Hl2) as (ms3 & Hl3 & Hsub3).
  exists ms3. split; [done|]. by etrans.
Qed.

Lemma set_property_keeps obj key m st :
  _tableName (set_property obj key m st).2 = _tableName st
  ∧ keeps_keys (heap st) (heap (set_property obj key m st).2).
Proof.
  destruct obj; try (split; [reflexivity|apply keeps_keys_refl]).
  rewrite set_property_obj. cbn [snd _tableName heap]. split; [done|].
  intros l' ms Hl'. destruct (decide (l = l')) as [->|Hne].
  - rewrite lookup_insert_eq, Hl'. eexists. split; [reflexivity|].
    cbn. rewrite dom_insert_L. apply union_subseteq_r.
  - rewrite lookup_insert_ne by done. by exists ms.
Qed.

Lemma run_decl_keeps this d st :
  keeps_table_names (_tableName st) (_tableName (run_decl this d st).2)
  ∧ keeps_keys (heap st) (heap (run_decl this d st).2).
Proof.
  destruct (run_decl_effect this d st)
    as (tn & Hkeep & [(e & _ & E)|(key & m & _ & _ & _ & E)]); rewrite E.
  - split; [done|apply keeps_keys_refl].
  - match goal with |- context [set_property ?o ?k ?x ?s] =>
      destruct (set_property_keeps o k x s) as [Htn Hhp] end.
    rewrite Htn. by split.
Qed.

Lemma run_decls_keeps this ds st :
  keeps_table_names (_tableName st) (_tableName (run_decls this ds st).2)
  ∧ keeps_keys (heap st) (heap (run_decls this ds st).2).
Proof.
  revert st. induction ds as [|d ds IH]; intros st.
  - split; [apply keeps_table_names_refl|apply keeps_keys_refl].
  - cbn [run_decls]. unfold mbind, M_bind.
    destruct (run_decl_keeps this d st) as [Htn Hhp].
    destruct (run_decl this d st) as [[[]|e] st1]; [|by split].
    destruct (IH st1) as [Htn' Hhp'].
    split; [by eapply keeps_table_names_trans|by eapply keeps_keys_trans].
Qed.

Lemma relationMappings_keeps this st :
  keeps_table_names (_tableName st) (_tableName (relationMappings this st).2)
  ∧ keeps_keys (heap st) (heap (relationMappings this st).2).
Proof.
  destruct (truthy (proto_lookup (_relationMappings st) (chain this))) eqn:Hslot.
  { rewrite relationMappings_cached by done.
    split; [apply keeps_table_names_refl|apply keeps_keys_refl]. }
  rewrite relationMappings_empty by done. cbn zeta.
  assert (Hnew : keeps_keys (heap st) (<[fresh (dom (heap st)) := ∅]> (heap st))).
  { intros l ms Hl. exists ms. split; [|done].
    rewrite lookup_insert_ne; [done|]. intros <-.
    apply (is_fresh (dom (heap st))), elem_of_dom. by eexists. }
  unfold call_relations.
  destruct (dollar_relations (classes this)) as [ds|];
    unfold mbind, M_bind, throw, record_call, read_relationMappings;
    cbn [_tableName _relationMappings heap calls];
    [|split; [apply keeps_table_names_refl|exact Hnew]].
  match goal with |- context [run_decls this ds ?s] =>
    destruct (run_decls_keeps this ds s) as [Htn Hhp];
    destruct (run_decls this ds s) as [[[]|e] st1] end;
    cbn [snd _tableName heap] in *;
    (split; [done|by eapply keeps_keys_trans]).
Qed.

(** X14. A truthy table name that a class holds as its own is never
    changed by a [tableName] read on any class, by a builder, or by a
    request for the relation mappings, whether these succeed or throw. *)
Theorem resolved_table_names_are_stable (this : classid) (d : decl) (st : state) :
  keeps_table_names (_tableName st) (_tableName (tableName this st).2)
  ∧ keeps_table_names (_tableName st) (_tableName (run_decl this d st).2)
  ∧ keeps_table_names (_tableName st) (_tableName (relationMappings this st).2).
Proof.
  split_and!.
  - rewrite tableName_eq. cbn zeta. cbn [snd _tableName].
    apply keeps_table_names_read, keeps_table_names_refl.
  - apply run_decl_keeps.
  - apply relationMappings_keeps.
Qed.

(** X15. Builders and requests never remove anything from a mapping
    object: every object that exists stays, with every key it had (the
    mapping under a key may have been overwritten), whether the builder or
    the request succeeds or throws. *)
Theorem mapping_keys_are_kept (this : classid) (d : decl) (st : state) :
  keeps_keys (heap st) (heap (run_decl this d st).2)
  ∧ keeps_keys (heap st) (heap (relationMappings this st).2).
Proof.
  split; [apply run_decl_keeps|apply relationMappings_keeps].
Qed.

(** ** Further properties of the hooks *)

(** X16. On a clock that never runs backwards, a stamping insert sets
    [createdAt] no later than [updatedAt], and a stamping update that
    follows keeps that [createdAt] and sets [updatedAt] no earlier than
    the insert did. *)
Theorem insert_then_update_timestamps (cls : classid) (ctx ctx' : context) (w : world) :
  (∀ i j : nat, (i ≤ j)%nat → (clock i ≤ clock j)%Z) →
  (∀ c w0, (ticks w0 ≤ ticks (Model_beforeUpdate c w0))%nat) →
  keeps_timestamps Model_beforeUpdate →
  truthy (timestamps (classes cls)) = true →
  truthy (dontTouch ctx) = false →
  truthy (dontTouch ctx') = false →
  let wi := beforeInsert cls ctx w in
  let wu := beforeUpdate cls ctx' wi in
  ∃ tc tu tu',
    fields wi !! "createdAt" = Some (FDate tc)
    ∧ fields wi !! "updatedAt" = Some (FDate tu)
    ∧ (tc ≤ tu)%Z
    ∧ fields wu !! "createdAt" = Some (FDate tc)
    ∧ fields wu !! "updatedAt" = Some (FDate tu')
    ∧ (tu ≤ tu')%Z.
Proof.
  intros Hmono Htick Hkeep Hts Hctx Hctx' wi wu.
  assert (Hwi : ∃ fs t, wi = World (<["updatedAt" := FDate (clock (S t))]>
                                      (<["createdAt" := FDate (clock t)]> fs)) (S (S t))).
  { subst wi. unfold beforeInsert, new_Date, set_field. rewrite Hts, Hctx.
    cbn [andb negb fields ticks]. by eexists _, _. }
  destruct Hwi as (fs & t & Hwi). clearbody wi. subst wi.
  subst wu. unfold beforeUpdate, new_Date, set_field. rewrite Hts, Hctx'.
  cbn [andb negb fields ticks].
  match goal with |- context [Model_beforeUpdate ctx' ?x] =>
    specialize (Htick ctx' x); destruct (Hkeep ctx' x) as [Hc _];
    set (wb := Model_beforeUpdate ctx' x) in * end.
  cbn [fields ticks] in Htick, Hc.
  eexists _, _, _.
  split; [by rewrite lookup_insert_ne, lookup_insert_eq|].
  split; [apply lookup_insert_eq|].
  split; [apply Hmono; lia|].
  split.
  { rewrite lookup_insert_ne by done. rewrite Hc.
    by rewrite lookup_insert_ne, lookup_insert_eq. }
  split; [apply lookup_insert_eq|].
  apply Hmono. lia.
Qed.

(** X17. Beyond what the base hook does, [$beforeInsert] writes no
    property other than [createdAt] and [updatedAt] and [$beforeUpdate]
    none other than [updatedAt]; a stamping insert reads the clock twice,
    a stamping update once, and a hook that does not stamp never reads
    it. *)
Theorem hooks_write_only_timestamps (cls : classid) (ctx : context) (w : world) :
  let stamps := truthy (timestamps (classes cls)) && negb (truthy (dontTouch ctx)) in
  let bi := Model_beforeInsert ctx w in
  let bu := Model_beforeUpdate ctx w in
  let wi := beforeInsert cls ctx w in
  let wu := beforeUpdate cls ctx w in
  (∀ k, k ≠ "createdAt" → k ≠ "updatedAt" → fields wi !! k = fields bi !! k)
  ∧ (∀ k, k ≠ "updatedAt" → fields wu !! k = fields bu !! k)
  ∧ ticks wi = (ticks bi + if stamps then 2 else 0)%nat
  ∧ ticks wu = (ticks bu + if stamps then 1 else 0)%nat.
Proof.
  intros stamps bi bu wi wu. subst wi wu bi bu.
  unfold beforeInsert, beforeUpdate, new_Date, set_field. fold stamps.
  destruct stamps; cbn [fields ticks]; split_and!; try done; try lia.
  - intros k Hc Hu. by rewrite !lookup_insert_ne.
  - intros k Hu. by rewrite lookup_insert_ne.
Qed.

(** X18. A table name assigned to the target class is the one the
    convention defaults use: [belongsTo] and [hasMany] declared without
    options after the assignment store a [from] that starts with the
    assigned table name instead of the target's class name. *)
Theorem assigned_table_name_feeds_defaults (O T : classid) (table : jsval) (l : loc)
    (st : state) :
  truthy table = true →
  proto_lookup (_relationMappings st) (chain O) = JObj l →
  Forall (λ build : target → options → decl,
            ∃ st' key m,
              run_decl O (build (TClass T) no_options) (set_tableName T table st).2
              = (Ok tt, st')
              ∧ decl_key (build (TClass T) no_options) = Some key
              ∧ mapping_at st' l key = Some m
              ∧ from (join m)
                = JStr (to_string table +:+ "." +:+ camelCase (name (classes O))
                          +:+ upperFirst (idColumn (classes O))))
         [DBelongsTo; DHasMany].
Proof.
  intros Ht Hslot.
  assert (Hor : ∀ b, js_or table b = table) by (intros b; unfold js_or; by rewrite Ht).
  repeat constructor;
    unfold run_decl, decl_key, belongsTo, hasMany, set_tableName, write_tableName,
      _getModelClass;
    run_no_options; rewrite proto_lookup_own_insert, Hor, Hslot, set_property_obj;
    cbn [_tableName _relationMappings heap calls];
    eexists _, _, _; (split; [reflexivity|]); (split; [reflexivity|]);
    (split; [apply mapping_at_stored|]); reflexivity.
Qed.

(** X19. [hasManyThrough] resolves the through model last: when the
    target is found but [through.model] names a module that cannot be
    loaded, it throws for that path and stores nothing, and no slot
    changes. *)
Theorem unresolved_through_model_fails (this mc : classid) (model : target)
    (s : string) (n jf jt f tbl tfrom tto extra tfilter : jsval) (st : state) :
  _getModelClass model = Ok mc →
  s ≠ "" →
  require (module_path s) = None →
  ∃ st',
    hasManyThrough this model
      (Options n jf jt f (Some (ThroughOptions (Some (TStr s)) tbl tfrom tto extra tfilter)))
      st = (Throw (ModuleNotFound (module_path s)), st')
    ∧ heap st' = heap st
    ∧ _relationMappings st' = _relationMappings st
    ∧ calls st' = calls st.
Proof.
  intros Hmodel Hs Hnone. unfold module_path in *.
  unfold hasManyThrough. rewrite Hmodel. run_builder.
  cbn [o_name o_joinFrom o_joinTo o_filter o_through default from_option id th_model].
  assert (model_given (Some (TStr s)) = Some (TStr s)) as ->
    by (destruct s; [done|reflexivity]).
  unfold _getModelClass. rewrite Hnone.
  destruct (truthy jf), (truthy jt); run_builder;
    eexists; (split; [reflexivity|]); by split_and!.
Qed.

End Model.

(** ** The example program, run *)

Section Run.

Import Example.

Local Abbreviation relationMappings' :=
  (relationMappings camelCase upperFirst plural require cwd classes).
Local Abbreviation run_decl' :=
  (run_decl camelCase upperFirst plural require cwd classes).

(** Against C1 as stated: Puppy extends Pet and has a hook of its own.
    Once Pet's mappings are resolved, a request on Puppy returns Pet's
    object, leaves Puppy without a slot of its own and never calls Puppy's
    hook; and a builder called on Puppy then overwrites the mapping stored
    in Pet's object. *)
Lemma subtype_reuses_parent_mappings :
  relationMappings' Pet init = (Ok (JObj 0), after_pet)
  ∧ Puppy ≠ Pet
  ∧ dollar_relations (classes Puppy) = Some [DHasOne (TClass Person) no_options]
  ∧ relationMappings' Puppy after_pet = (Ok (JObj 0), after_pet)
  ∧ _relationMappings after_pet !! Puppy = None
  ∧ (Puppy ∉ calls after_pet)
  ∧ mapping_at after_pet 0 "person" ≠
      mapping_at (run_decl' Puppy (DHasOne (TClass Person) no_options) after_pet).2
                 0 "person".
Proof.
  split_and!; try (vm_compute; reflexivity); try (vm_compute; discriminate).
  apply not_elem_of_cons. split; [done|apply not_elem_of_nil].
Qed.

Lemma relationMappings_isolation_witness :
  relationMappings' Pet init = (Ok (JObj 0), after_pet)
  ∧ truthy (proto_lookup (_relationMappings init) (chain classes Pet)) = false
  ∧ (∀ other, other ≠ Pet →
       _relationMappings after_pet !! other = _relationMappings init !! other)
  ∧ (∃ l, (l ∉ dom (heap init)) ∧ l ∈ dom (heap after_pet)
          ∧ _relationMappings after_pet !! Pet = Some (JObj l)
          ∧ (∀ v, Ok (JObj 0) = Ok v → v = JObj l)
          ∧ calls after_pet = Pet :: calls init).
Proof.
  assert (H : relationMappings' Pet init = (Ok (JObj 0), after_pet))
    by (vm_compute; reflexivity).
  split; [exact H|]. split; [reflexivity|].
  destruct (relationMappings_isolation camelCase upperFirst plural require cwd classes
              Pet init _ _ H) as (Hothers & _ & _ & Hempty & _).
  split; [exact Hothers|].
  destruct (Hempty eq_refl) as (l & Hfresh & Hin & Hown & Hres & Hcalls).
  exists l. split; [exact Hfresh|]. split; [exact Hin|]. split; [exact Hown|].
  split; [exact Hres|]. apply Hcalls. eexists. reflexivity.
Defined.



Lemma belongsTo_defaults_witness :
  _getModelClass require cwd (TClass Person) = Ok Person
  ∧ proto_lookup (_relationMappings (declaring Pet)) (chain classes Pet) = JObj 0
  ∧ ∃ st' m,
      belongsTo camelCase upperFirst require cwd classes Pet (TClass Person) no_options
        (declaring Pet) = (Ok tt, st')
      ∧ mapping_at st' 0 "person" = Some m
      ∧ from (join m) = JStr "Person.petId" ∧ to (join m) = JStr "Pet.id".
Proof.
  split; [reflexivity|]. split; [reflexivity|].
  destruct (belongsTo_defaults camelCase upperFirst require cwd classes Pet Person
              (TClass Person) 0 (declaring Pet) eq_refl eq_refl)
    as (tT & tO & st' & m & _ & _ & Hrun & _ & _ & Hat & _ & _ & _ & _ & Hpet).
  exists st', m. split; [exact Hrun|]. split; [exact Hat|].
  apply Hpet; try reflexivity.
  apply not_elem_of_cons; split; [discriminate|].
  apply not_elem_of_cons; split; [discriminate|apply not_elem_of_nil].
Defined.

Lemma hasOne_defaults_witness :
  _getModelClass require cwd (TClass Pet) = Ok Pet
  ∧ proto_lookup (_relationMappings (declaring Person)) (chain classes Person) = JObj 0
  ∧ ∃ st' m,
      hasOne camelCase upperFirst require cwd classes Person (TClass Pet) no_options
        (declaring Person) = (Ok tt, st')
      ∧ mapping_at st' 0 "pet" = Some m
      ∧ from (join m) = JStr "Person.petId" ∧ to (join m) = JStr "Pet.id".
Proof.
  split; [reflexivity|]. split; [reflexivity|].
  destruct (hasOne_defaults camelCase upperFirst require cwd classes Person Pet
              (TClass Pet) 0 (declaring Person) eq_refl eq_refl)
    as (tO & tT & st' & m & HtO & HtT & Hrun & _ & _ & Hat & _ & _ & Hfrom & Hto).
  injection HtO as <-. injection HtT as <-.
  exists st', m. split; [exact Hrun|]. split; [exact Hat|].
  split; [exact Hfrom|exact Hto].
Defined.

Lemma hasMany_defaults_witness :
  _getModelClass require cwd (TClass Pet) = Ok Pet
  ∧ proto_lookup (_relationMappings (declaring Person)) (chain classes Person) = JObj 0
  ∧ ∃ st' m,
      hasMany camelCase upperFirst plural require cwd classes Person (TClass Pet)
        no_options (declaring Person) = (Ok tt, st')
      ∧ mapping_at st' 0 "pets" = Some m
      ∧ from (join m) = JStr "Pet.personId" ∧ to (join m) = JStr "Person.id".
Proof.
  split; [reflexivity|]. split; [reflexivity|].
  destruct (hasMany_defaults camelCase upperFirst plural require cwd classes Person Pet
              (TClass Pet) 0 (declaring Person) eq_refl eq_refl)
    as (tT & tO & st' & m & _ & _ & Hrun & _ & _ & _ & _ & _ & _ & _ & Hpets).
  exists st', m. split; [exact Hrun|].
  apply Hpets; try reflexivity.
  apply not_elem_of_cons; split; [discriminate|].
  apply not_elem_of_cons; split; [discriminate|apply not_elem_of_nil].
Defined.




Lemma clock_monotone (i j : nat) : (i ≤ j)%nat → (clock i ≤ clock j)%Z.
Proof. unfold clock. lia. Defined.

Lemma timestamps_stamped_witness :
  truthy (timestamps (classes Pet)) = true
  ∧ truthy (dontTouch (Context JUndefined)) = false
  ∧ keeps_timestamps Model_hook
  ∧ (let wi := beforeInsert classes clock Model_hook Pet (Context JUndefined) record in
     let wu := beforeUpdate classes clock Model_hook Pet (Context JUndefined) record in
     (∃ tc tu,
        fields wi !! "createdAt" = Some (FDate tc)
        ∧ fields wi !! "updatedAt" = Some (FDate tu)
        ∧ (clock (ticks record) ≤ tc ≤ clock (ticks wi))%Z
        ∧ (clock (ticks record) ≤ tu ≤ clock (ticks wi))%Z)
     ∧ (∃ tu,
          fields wu !! "updatedAt" = Some (FDate tu)
          ∧ (clock (ticks record) ≤ tu ≤ clock (ticks wu))%Z
          ∧ fields wu !! "createdAt" = fields record !! "createdAt")).
Proof.
  assert (Hkeep : keeps_timestamps Model_hook) by (intros ctx w; split; reflexivity).
  split; [reflexivity|]. split; [reflexivity|]. split; [exact Hkeep|].
  exact (timestamps_stamped classes clock Model_hook Model_hook Pet (Context JUndefined)
           record clock_monotone (λ _ _, le_n _) (λ _ _, le_n _) Hkeep eq_refl eq_refl).
Defined.

Lemma update_ignores_operation_context_witness :
  keeps_timestamps Model_hook
  ∧ truthy (timestamps (classes Pet)) = true
  ∧ truthy (dontTouch (Context (JBool true))) = true
  ∧ truthy (dontTouch (Context JUndefined)) = false
  ∧ (let wi := on_insert classes clock Model_hook Pet (Context (JBool true)) saved in
     let wu := on_update classes clock Model_hook Pet (Context JUndefined)
                 (Context (JBool true)) saved in
     fields wi !! "updatedAt" = Some (FDate 42)
     ∧ fields saved !! "updatedAt" = Some (FDate 42)
     ∧ fields wu !! "updatedAt" = Some (FDate 7000)).
Proof.
  assert (Hkeep : keeps_timestamps Model_hook) by (intros ctx w; split; reflexivity).
  split_and!; [exact Hkeep|reflexivity..|].
  destruct (update_ignores_operation_context classes clock Model_hook Model_hook Pet
              (Context JUndefined) (Context (JBool true)) saved Hkeep
              eq_refl eq_refl eq_refl) as (_ & Hi & Hu & _).
  split; [exact Hi|]. split; [reflexivity|exact Hu].
Defined.

Lemma tableName_falsy_assignment_falls_back_witness :
  truthy (JStr "") = false
  ∧ ∃ st',
      tableName classes Pet (set_tableName Pet (JStr "") after_pet).2
      = (Ok (JStr "Pet"), st')
      ∧ _tableName st' !! Pet = Some (JStr "Pet")
      ∧ tableName classes Pet st' = (Ok (JStr "Pet"), st').
Proof.
  split; [reflexivity|].
  exact (tableName_falsy_assignment_falls_back classes Pet (JStr "") after_pet eq_refl).
Defined.

Lemma tableName_assignment_round_trip_witness :
  truthy (JStr "pets") = true
  ∧ tableName classes Puppy (set_tableName Puppy (JStr "pets") after_pet).2
    = (Ok (JStr "pets"), (set_tableName Puppy (JStr "pets") after_pet).2).
Proof.
  split; [reflexivity|].
  exact (tableName_assignment_round_trip classes Puppy (JStr "pets") after_pet eq_refl).
Defined.

Lemma tableName_inherited_witness :
  superclasses (classes Puppy) = [Pet; BaseModel]
  ∧ _tableName init !! Puppy = None
  ∧ tableName classes Pet init = (Ok (JStr "Pet"), State {[ Pet := JStr "Pet" ]} ∅ ∅ [])
  ∧ truthy (JStr "Pet") = true
  ∧ ∃ st2, tableName classes Puppy (State {[ Pet := JStr "Pet" ]} ∅ ∅ [])
           = (Ok (JStr "Pet"), st2)
           ∧ _tableName st2 !! Puppy = Some (JStr "Pet")
           ∧ tableName classes Puppy st2 = (Ok (JStr "Pet"), st2).
Proof.
  assert (H : tableName classes Pet init
              = (Ok (JStr "Pet"), State {[ Pet := JStr "Pet" ]} ∅ ∅ []))
    by (vm_compute; reflexivity).
  split_and!; [reflexivity|reflexivity|exact H|reflexivity|].
  exact (tableName_inherited classes Puppy Pet [BaseModel] (JStr "Pet") init _
           eq_refl eq_refl H eq_refl).
Defined.

Lemma tableName_unrelated_read_witness :
  (Person ∉ chain classes Pet)
  ∧ (tableName classes Pet (tableName classes Person init).2).1
    = (tableName classes Pet init).1.
Proof.
  assert (H : Person ∉ chain classes Pet).
  { apply not_elem_of_cons; split; [discriminate|].
    apply not_elem_of_cons; split; [discriminate|apply not_elem_of_nil]. }
  split; [exact H|].
  exact (tableName_unrelated_read classes Pet Person init H).
Defined.

Lemma relationMappings_assignment_round_trip_witness :
  truthy (JObj 0) = true
  ∧ relationMappings' Person (set_relationMappings Person (JObj 0) after_pet).2
    = (Ok (JObj 0), (set_relationMappings Person (JObj 0) after_pet).2).
Proof.
  split; [reflexivity|].
  exact (relationMappings_assignment_round_trip camelCase upperFirst plural require cwd
           classes Person (JObj 0) after_pet eq_refl).
Defined.

Lemma relationMappings_falsy_assignment_rebuilds_witness :
  truthy JNull = false
  ∧ dollar_relations (classes Puppy) = Some [DHasOne (TClass Person) no_options]
  ∧ forallb (decl_ok require cwd) [DHasOne (TClass Person) no_options] = true
  ∧ ∃ l st1,
      relationMappings' Puppy (set_relationMappings Puppy JNull after_pet).2
      = (Ok (JObj l), st1)
      ∧ (l ∉ dom (heap after_pet))
      ∧ _relationMappings st1 !! Puppy = Some (JObj l)
      ∧ calls st1 = Puppy :: calls after_pet
      ∧ (∀ other, other ≠ Puppy →
           _relationMappings st1 !! other = _relationMappings after_pet !! other).
Proof.
  split_and!; [reflexivity..|].
  exact (relationMappings_falsy_assignment_rebuilds camelCase upperFirst plural require
           cwd classes Puppy JNull [DHasOne (TClass Person) no_options] after_pet
           eq_refl eq_refl eq_refl).
Defined.

Lemma relationMappings_without_hook_witness :
  truthy (proto_lookup (_relationMappings init) (chain classes BaseModel)) = false
  ∧ dollar_relations (classes BaseModel) = None
  ∧ ∃ l st1,
      relationMappings' BaseModel init = (Throw TypeError, st1)
      ∧ relationMappings' BaseModel st1 = (Ok (JObj l), st1)
      ∧ (l ∉ dom (heap init))
      ∧ heap st1 !! l = Some ∅
      ∧ calls st1 = calls init.
Proof.
  split_and!; [reflexivity..|].
  exact (relationMappings_without_hook camelCase upperFirst plural require cwd classes
           BaseModel init eq_refl eq_refl).
Defined.


Lemma unresolved_target_fails_fast_witness :
  require (module_path cwd "Kennel") = None
  ∧ module_path cwd "Kennel" = "/app/src/models/Kennel"
  ∧ Forall (λ build : target → options → decl,
              run_decl' Pet (build (TStr "Kennel") no_options) (declaring Pet)
              = (Throw (ModuleNotFound (module_path cwd "Kennel")), declaring Pet))
           [DBelongsTo; DHasOne; DHasMany; DHasManyThrough].
Proof.
  split; [reflexivity|]. split; [reflexivity|].
  exact (unresolved_target_fails_fast camelCase upperFirst plural require cwd classes
           Pet "Kennel" no_options (declaring Pet) eq_refl).
Defined.

Lemma explicit_overrides_are_kept_witness :
  _getModelClass require cwd (TClass Person) = Ok Person
  ∧ truthy (JStr "owner") = true
  ∧ truthy (JStr "pets.owner_id") = true
  ∧ truthy (JStr "people.id") = true
  ∧ proto_lookup (_relationMappings (declaring Pet)) (chain classes Pet) = JObj 0
  ∧ Forall (λ build : target → options → decl,
              ∃ st', run_decl' Pet
                       (build (TClass Person)
                          (Options (JStr "owner") (JStr "pets.owner_id")
                                   (JStr "people.id") JUndefined None))
                       (declaring Pet) = (Ok tt, st')
                     ∧ _tableName st' = _tableName (declaring Pet)
                     ∧ mapping_at st' 0 (to_string (JStr "owner"))
                       = Some (RelationMapping
                                 (decl_kind (build (TClass Person) no_options)) Person
                                 (js_or JUndefined JNull)
                                 (JoinSpec (JStr "pets.owner_id") (JStr "people.id") None)))
           [DBelongsTo; DHasOne; DHasMany].
Proof.
  split_and!; [reflexivity..|].
  exact (explicit_overrides_are_kept camelCase upperFirst plural require cwd classes
           Pet Person (TClass Person) (JStr "owner") (JStr "pets.owner_id")
           (JStr "people.id") JUndefined None 0 (declaring Pet)
           eq_refl eq_refl eq_refl eq_refl eq_refl).
Defined.

Lemma hasManyThrough_defaults_witness :
  _getModelClass require cwd (TClass Pet) = Ok Pet
  ∧ proto_lookup (_relationMappings (declaring Person)) (chain classes Person) = JObj 0
  ∧ ∃ st' m,
      hasManyThrough camelCase upperFirst plural require cwd classes Person (TClass Pet)
        no_options (declaring Person) = (Ok tt, st')
      ∧ mapping_at st' 0 "pets" = Some m
      ∧ from (join m) = JStr "Person.id" ∧ to (join m) = JStr "Pet.id".
Proof.
  split; [reflexivity|]. split; [reflexivity|].
  destruct (hasManyThrough_defaults camelCase upperFirst plural require cwd classes
              Person Pet (TClass Pet) 0 (declaring Person) eq_refl eq_refl)
    as (tO & tT & st' & m & ts & HtO & HtT & Hrun & _ & _ & Hat & _ & _ & _
        & Hfrom & Hto & _).
  injection HtO as <-. injection HtT as <-.
  exists st', m. split; [exact Hrun|]. split; [exact Hat|].
  split; [exact Hfrom|exact Hto].
Defined.

Lemma same_name_declaration_overwrites_witness :
  decl_ok require cwd (DBelongsTo (TClass Person) no_options) = true
  ∧ decl_ok require cwd (DHasOne (TClass Person) no_options) = true
  ∧ decl_key camelCase plural require cwd classes (DBelongsTo (TClass Person) no_options)
    = Some "person"
  ∧ decl_key camelCase plural require cwd classes (DHasOne (TClass Person) no_options)
    = Some "person"
  ∧ proto_lookup (_relationMappings (declaring Pet)) (chain classes Pet) = JObj 0
  ∧ heap (declaring Pet) !! 0 = Some ∅
  ∧ ∃ st1 st2 m ms2,
      run_decl' Pet (DBelongsTo (TClass Person) no_options) (declaring Pet) = (Ok tt, st1)
      ∧ run_decl' Pet (DHasOne (TClass Person) no_options) st1 = (Ok tt, st2)
      ∧ heap st2 !! 0 = Some ms2
      ∧ ms2 !! "person" = Some m ∧ relation m = HasOneRelation
      ∧ dom ms2 = {[ "person" ]} ∪ dom (∅ : gmap string relation_mapping)
      ∧ (∀ k, k ≠ "person" → ms2 !! k = (∅ : gmap string relation_mapping) !! k).
Proof.
  split_and!; [reflexivity..|].
  exact (same_name_declaration_overwrites camelCase upperFirst plural require cwd classes
           Pet (DBelongsTo (TClass Person) no_options)
           (DHasOne (TClass Person) no_options) "person" 0 ∅ (declaring Pet)
           eq_refl eq_refl eq_refl eq_refl eq_refl eq_refl).
Defined.

Lemma builder_without_slot_throws_witness :
  decl_ok require cwd (DBelongsTo (TClass Person) no_options) = true
  ∧ (∀ l, proto_lookup (_relationMappings init) (chain classes Pet) ≠ JObj l)
  ∧ ∃ st', run_decl' Pet (DBelongsTo (TClass Person) no_options) init
           = (Throw TypeError, st')
           ∧ heap st' = heap init
           ∧ _relationMappings st' = _relationMappings init
           ∧ calls st' = calls init
           ∧ keeps_table_names (_tableName init) (_tableName st').
Proof.
  assert (H : ∀ l, proto_lookup (_relationMappings init) (chain classes Pet) ≠ JObj l)
    by (intros l; discriminate).
  split; [reflexivity|]. split; [exact H|].
  exact (builder_without_slot_throws camelCase upperFirst plural require cwd classes
           Pet (DBelongsTo (TClass Person) no_options) init eq_refl H).
Defined.

Lemma insert_then_update_timestamps_witness :
  truthy (timestamps (classes Pet)) = true
  ∧ truthy (dontTouch (Context JUndefined)) = false
  ∧ truthy (dontTouch (Context (JBool false))) = false
  ∧ keeps_timestamps Model_hook
  ∧ (let wi := beforeInsert classes clock Model_hook Pet (Context JUndefined) record in
     let wu := beforeUpdate classes clock Model_hook Pet (Context (JBool false)) wi in
     ∃ tc tu tu',
       fields wi !! "createdAt" = Some (FDate tc)
       ∧ fields wi !! "updatedAt" = Some (FDate tu)
       ∧ (tc ≤ tu)%Z
       ∧ fields wu !! "createdAt" = Some (FDate tc)
       ∧ fields wu !! "updatedAt" = Some (FDate tu')
       ∧ (tu ≤ tu')%Z).
Proof.
  assert (Hkeep : keeps_timestamps Model_hook) by (intros ctx w; split; reflexivity).
  split_and!; [reflexivity|reflexivity|reflexivity|exact Hkeep|].
  exact (insert_then_update_timestamps classes clock Model_hook Model_hook Pet
           (Context JUndefined) (Context (JBool false)) record
           clock_monotone (λ _ _, le_n _) Hkeep eq_refl eq_refl eq_refl).
Defined.

Lemma assigned_table_name_feeds_defaults_witness :
  truthy (JStr "people") = true
  ∧ proto_lookup (_relationMappings (declaring Pet)) (chain classes Pet) = JObj 0
  ∧ Forall (λ build : target → options → decl,
              ∃ st' key m,
                run_decl' Pet (build (TClass Person) no_options)
                  (set_tableName Person (JStr "people") (declaring Pet)).2
                = (Ok tt, st')
                ∧ decl_key camelCase plural require cwd classes
                    (build (TClass Person) no_options) = Some key
                ∧ mapping_at st' 0 key = Some m
                ∧ from (join m)
                  = JStr (to_string (JStr "people") +:+ "." +:+ camelCase (name (classes Pet))
                            +:+ upperFirst (idColumn (classes Pet))))
           [DBelongsTo; DHasMany].
Proof.
  split; [reflexivity|]. split; [reflexivity|].
  exact (assigned_table_name_feeds_defaults camelCase upperFirst plural require cwd classes
           Pet Person (JStr "people") 0 (declaring Pet) eq_refl eq_refl).
Defined.

Lemma unresolved_through_model_fails_witness :
  _getModelClass require cwd (TClass Pet) = Ok Pet
  ∧ "Adoption" ≠ ""
  ∧ require (module_path cwd "Adoption") = None
  ∧ ∃ st',
      hasManyThrough camelCase upperFirst plural require cwd classes Person (TClass Pet)
        (Options JUndefined JUndefined JUndefined JUndefined
           (Some (ThroughOptions (Some (TStr "Adoption")) JUndefined JUndefined
                    JUndefined JUndefined JUndefined)))
        (declaring Person)
      = (Throw (ModuleNotFound (module_path cwd "Adoption")), st')
      ∧ heap st' = heap (declaring Person)
      ∧ _relationMappings st' = _relationMappings (declaring Person)
      ∧ calls st' = calls (declaring Person).
Proof.
  assert (Hne : "Adoption" ≠ "") by discriminate.
  split; [reflexivity|]. split; [exact Hne|]. split; [reflexivity|].
  exact (unresolved_through_model_fails camelCase upperFirst plural require cwd classes
           Person Pet (TClass Pet) "Adoption" JUndefined JUndefined JUndefined JUndefined
           JUndefined JUndefined JUndefined JUndefined JUndefined (declaring Person)
           eq_refl Hne eq_refl).
Defined.

End Run.
